(** * Skybound Echoes: the session host of [server.js]

    A shallow embedding of the WebSocket game server and the proofs of its
    specification.  JavaScript numbers are IEEE 754 binary64 values
    ([spec_float] at precision 53 and maximal exponent 1024), JSON messages
    are values of an inductive type, the [players] Map is an insertion-ordered
    association list from ids to references of player objects, and every
    handler is a function from the server state to a completion that carries
    the new state and the frames handed to the sockets.  A completion is
    normal or an uncaught exception: [String] and [JSON.stringify] throw on
    client data they cannot convert, be it for its shape or for its depth,
    which the call stack of the engine bounds. *)

From Stdlib Require Import ZArith Lia Bool List String Ascii.
From Stdlib Require Import QArith Qpower DecimalString DecimalN.
From Stdlib Require Import Floats.SpecFloat.
From stdpp Require Import base option list.
Import ListNotations.

Local Open Scope string_scope.
Local Open Scope Z_scope.

(** ** JavaScript numbers *)

Module Num.

Definition prec : Z := 53.
Definition emax : Z := 1024.

(** A Number value; the ones the engine produces satisfy [valid]. *)
Definition number : Type := spec_float.

Definition valid (x : number) : bool := valid_binary prec emax x.

Definition NaN : number := S754_nan.
Definition Infinity : number := S754_infinity false.

(** The Number value of an integer literal. *)
Definition of_Z (z : Z) : number := binary_normalize prec emax z 0 false.

Definition add : number -> number -> number := SFadd prec emax.
Definition sub : number -> number -> number := SFsub prec emax.
Definition mul : number -> number -> number := SFmul prec emax.
Definition div : number -> number -> number := SFdiv prec emax.

(** [a < b] and [a <= b] of the language: false as soon as one side is NaN. *)
Definition lt (a b : number) : bool := SFltb a b.
Definition le (a b : number) : bool := SFleb a b.

Definition is_nan (x : number) : bool :=
  match x with S754_nan => true | _ => false end.

Definition is_zero (x : number) : bool :=
  match x with S754_zero _ => true | _ => false end.

(** Structural equality of representations (not the [===] of the language,
    which identifies the two zeros and separates NaN from itself). *)
Definition same (a b : number) : bool :=
  match a, b with
  | S754_zero s, S754_zero t => Bool.eqb s t
  | S754_infinity s, S754_infinity t => Bool.eqb s t
  | S754_nan, S754_nan => true
  | S754_finite s m e, S754_finite t n f =>
      Bool.eqb s t && Pos.eqb m n && Z.eqb e f
  | _, _ => false
  end.

(** [Math.min(a, b)]: NaN if either is NaN, and -0 is below +0. *)
Definition Math_min (a b : number) : number :=
  match SFcompare a b with
  | None => NaN
  | Some Lt => a
  | Some Gt => b
  | Some Eq => match a with S754_zero true => a | _ => b end
  end.

(** [Math.max(a, b)]: NaN if either is NaN, and +0 is above -0. *)
Definition Math_max (a b : number) : number :=
  match SFcompare a b with
  | None => NaN
  | Some Gt => a
  | Some Lt => b
  | Some Eq => match a with S754_zero false => a | _ => b end
  end.

(** [Math.floor(x)]: the largest integer not above [x]; NaN, the
    infinities and the zeros are returned as they are, and so is a finite
    value with a non-negative exponent, which is an integer already. *)
Definition Math_floor (x : number) : number :=
  match x with
  | S754_finite s m e =>
      if 0 <=? e then x
      else of_Z (cond_Zopp s (Zpos m) / 2 ^ (- e))
  | _ => x
  end.

(** What [Math.random()] may return: a Number with positive sign, at
    least +0 and strictly below 1. *)
Definition unit_interval (r : number) : Prop :=
  r = S754_zero false \/
  exists m e, r = S754_finite false m e /\ valid r = true /\ lt r (of_Z 1) = true.

End Num.

Export Num.

(** ** JavaScript values *)

Module JS.

(** The values a handler meets: what [JSON.parse] returns, [undefined] for
    an absent property, and the object literals the server builds. *)
#[warnings="-register-all"]
Inductive value : Type :=
| VUndefined
| VNull
| VBool (b : bool)
| VNum (n : number)
| VStr (s : string)
| VArr (items : list value)
| VObj (fields : list (string * value)).

(** Own-property lookup in a field list. *)
Fixpoint assoc (k : string) (fields : list (string * value)) : value :=
  match fields with
  | [] => VUndefined
  | (k', v) :: rest => if String.eqb k' k then v else assoc k rest
  end.

(** [v.k] for the property names the server reads ([type], [name], [x],
    [y], [bubbleRadius], [coinId], [to], [data], [text]): none of them is
    defined on a built-in prototype, so the access yields the own property
    of an object and [undefined] on everything else.  The server never
    reads a property of [undefined] or [null]. *)
Definition get (v : value) (k : string) : value :=
  match v with
  | VObj fields => assoc k fields
  | _ => VUndefined
  end.

(** ToBoolean. *)
Definition truthy (v : value) : bool :=
  match v with
  | VUndefined | VNull => false
  | VBool b => b
  | VNum n => negb (is_zero n || is_nan n)
  | VStr s => negb (String.eqb s "")
  | VArr _ | VObj _ => true
  end.

(** [typeof v === 'number'] and [typeof v === 'string']. *)
Definition as_number (v : value) : option number :=
  match v with VNum n => Some n | _ => None end.

Definition as_string (v : value) : option string :=
  match v with VStr s => Some s | _ => None end.

(** [v === lit] for a string literal [lit]; this is also the SameValueZero
    test of a Map whose keys are strings. *)
Definition is_str (v : value) (lit : string) : bool :=
  match v with VStr s => String.eqb s lit | _ => false end.

(** [a || b]. *)
Definition or_else (a b : value) : value := if truthy a then a else b.

(** [s.slice(0, n)]. *)
Definition slice0 (n : nat) (s : string) : string := substring 0 n s.

(** Whether the conversion [String(v)] meets no TypeError.  An object is
    converted by its [toString] method, then by [valueOf]: parsed data is
    never callable, so an own [toString] property hides
    [Object.prototype.toString], and an own or inherited [valueOf] then
    yields no primitive.  An array joins the conversions of its elements,
    with [undefined] and [null] converted to the empty string. *)
Fixpoint convertible (v : value) : bool :=
  match v with
  | VUndefined | VNull | VBool _ | VNum _ | VStr _ => true
  | VArr items =>
      (fix all (l : list value) : bool :=
         match l with
         | [] => true
         | x :: l' => convertible x && all l'
         end) items
  | VObj fields =>
      negb (existsb (fun kv => String.eqb (fst kv) "toString") fields)
  end.

(** How many arrays sit directly inside one another: the depth to which
    [Array.prototype.join], and with it [String], calls itself.  An object
    inside an array is converted without a look at its properties. *)
Fixpoint array_depth (v : value) : nat :=
  match v with
  | VArr items =>
      S ((fix deepest (l : list value) : nat :=
            match l with
            | [] => O
            | x :: l' => Nat.max (array_depth x) (deepest l')
            end) items)
  | _ => O
  end.

(** How many arrays and objects sit inside one another: the depth to which
    [JSON.stringify] calls itself. *)
Fixpoint depth (v : value) : nat :=
  match v with
  | VArr items =>
      S ((fix deepest (l : list value) : nat :=
            match l with
            | [] => O
            | x :: l' => Nat.max (depth x) (deepest l')
            end) items)
  | VObj fields =>
      S ((fix deepest (l : list (string * value)) : nat :=
            match l with
            | [] => O
            | (_, x) :: l' => Nat.max (depth x) (deepest l')
            end) fields)
  | _ => O
  end.

(** The engine the process runs on, as far as the server depends on it.
    Its call stack is finite, so a recursive conversion of a value nested
    too deeply ends in a RangeError.  [stringify_room] is the number of
    levels [JSON.stringify] can descend beyond the three levels of the
    frames the server builds itself, and [join_room] is the number of
    arrays inside one another that [String] can convert.  [JSON.parse] is
    taken not to recurse: it delivers values of any depth. *)
Record Engine : Type := mkEngine {
  stringify_room : nat;
  join_room : nat
}.

(** Whether [String(v)] returns; it throws otherwise, a TypeError on an
    object it cannot convert or a RangeError on arrays nested too deeply. *)
Definition String_returns (eng : Engine) (v : value) : bool :=
  convertible v && (array_depth v <=? join_room eng)%nat.

(** Whether [JSON.stringify(v)] returns; it throws a RangeError otherwise.
    Parsed data has no cycle, no BigInt and no callable [toJSON]. *)
Definition stringify_returns (eng : Engine) (v : value) : bool :=
  (depth v <=? 3 + stringify_room eng)%nat.

(** What [JSON.parse] can return: no [undefined], and no NaN, for JSON has
    no literal for it (an overflowing literal parses to an infinity). *)
Fixpoint from_JSON (v : value) : bool :=
  match v with
  | VUndefined => false
  | VNull | VBool _ | VStr _ => true
  | VNum n => negb (is_nan n) && valid n
  | VArr items =>
      (fix all (l : list value) : bool :=
         match l with
         | [] => true
         | x :: l' => from_JSON x && all l'
         end) items
  | VObj fields =>
      (fix all (l : list (string * value)) : bool :=
         match l with
         | [] => true
         | (_, x) :: l' => from_JSON x && all l'
         end) fields
  end.

(** Decimal digits of a counter: [String(n)] for a non-negative integer. *)
Definition decimal (n : N) : string := NilEmpty.string_of_uint (N.to_uint n).

(** The value at which a counter stops: 2^53, where the binary64 sum
    [n + 1] rounds back to [n]. *)
Definition counter_max : N := 9007199254740992.

(** [n + 1] in binary64 arithmetic, for a counter [n] that holds an integer
    from 0 to 2^53: below 2^53 the sum is exact, and 2^53 + 1 lies halfway
    between 2^53 and 2^53 + 2 and is rounded to the even mantissa, 2^53
    (lemma [increment_binary64] below). *)
Definition increment (n : N) : N := if (n <? counter_max)%N then N.succ n else n.

End JS.

Export JS.

(** ** The world state *)

Module World.

Definition WORLD_W : number := of_Z 1600.
Definition WORLD_H : number := of_Z 900.
Definition GROUND_Y : number := sub WORLD_H (of_Z 120).

Record Coin : Type := mkCoin {
  c_id : string;
  c_x : number;
  c_y : number;
  c_taken : bool
}.

(** A player object.  Its [ws] field is the socket of the connection the
    object was created for; the two live in one [Conn] cell below. *)
Record Player : Type := mkPlayer {
  p_id : string;
  p_name : string;
  p_x : number;
  p_y : number;
  p_bubbleRadius : number
}.

Inductive ReadyState : Type := CONNECTING | OPEN | CLOSING | CLOSED.

Definition is_open (st : ReadyState) : bool :=
  match st with OPEN => true | _ => false end.

(** One accepted connection: the player object its handlers close over and
    the [readyState] of its socket.  A connection is referred to by its
    position in [conns]; cells are never removed, so a handler that runs
    after [players.delete] still finds its own player object. *)
Record Conn : Type := mkConn {
  player : Player;
  readyState : ReadyState
}.

(** The module-level variables of [server.js], and the engine that runs
    the module.  [nextId] holds the integer value of the counter, a binary64
    number that starts at 1, grows by [increment] and so never leaves the
    integers up to 2^53.  [players] is the Map in insertion order, from ids
    to references. *)
Record Server : Type := mkServer {
  engine : Engine;
  nextId : N;
  players : list (string * nat);
  conns : list Conn;
  coins : list Coin
}.

(** A frame handed to a socket: the receiving connection and the object
    given to [JSON.stringify]. *)
Definition Output : Type := (nat * value)%type.

(** How a handler ends: normally, or by an uncaught exception; either way
    with the state and the frames sent so far. *)
Inductive completion : Type :=
| Normal (s : Server) (out : list Output)
| Throws (s : Server) (out : list Output).

Definition final (c : completion) : Server :=
  match c with Normal s _ | Throws s _ => s end.

Definition sent (c : completion) : list Output :=
  match c with Normal _ out | Throws _ out => out end.

Definition handler : Type := Server -> completion.

Definition skip : handler := fun s => Normal s [].

Definition throw : handler := fun s => Throws s [].

Definition modify (f : Server -> Server) : handler := fun s => Normal (f s) [].

Definition emit (f : Server -> list Output) : handler := fun s => Normal s (f s).

Definition and_then (h1 h2 : handler) : handler :=
  fun s =>
    match h1 s with
    | Normal s1 o1 =>
        match h2 s1 with
        | Normal s2 o2 => Normal s2 (o1 ++ o2)
        | Throws s2 o2 => Throws s2 (o1 ++ o2)
        end
    | Throws s1 o1 => Throws s1 o1
    end.

Infix ">>>" := and_then (at level 62, right associativity).

Definition when (b : bool) (h : handler) : handler := if b then h else skip.

(** ** The Map of players *)

Fixpoint Map_get (key : value) (m : list (string * nat)) : option nat :=
  match m with
  | [] => None
  | (k, r) :: rest => if is_str key k then Some r else Map_get key rest
  end.

Fixpoint Map_set (k : string) (r : nat) (m : list (string * nat)) : list (string * nat) :=
  match m with
  | [] => [(k, r)]
  | (k', r') :: rest =>
      if String.eqb k' k then (k', r) :: rest else (k', r') :: Map_set k r rest
  end.

Fixpoint Map_delete (k : string) (m : list (string * nat)) : list (string * nat) :=
  match m with
  | [] => []
  | (k', r') :: rest =>
      if String.eqb k' k then rest else (k', r') :: Map_delete k rest
  end.

(** [players.values()]: the registered player objects, with their
    references, in insertion order. *)
Definition values (s : Server) : list (nat * Conn) :=
  omap (fun kr => (fun c => (snd kr, c)) <$> conns s !! snd kr) (players s).

(** ** Seeding *)

(** [spawnCoins], with [rnd n] the result of the [n]-th call of
    [Math.random()]; the loop counter [i] runs over integers below 20. *)
Definition spawn_one (rnd : nat -> number) (i : nat) : Coin :=
  {| c_id := "c" ++ decimal (N.of_nat i);
     c_x := add (of_Z 80)
              (Math_floor (mul (rnd (2 * i)%nat) (sub WORLD_W (of_Z 160))));
     c_y := add (of_Z 80)
              (Math_floor (mul (rnd (2 * i + 1)%nat) (sub WORLD_H (of_Z 240))));
     c_taken := false |}.

Fixpoint spawn_loop (rnd : nat -> number) (i todo : nat) (acc : list Coin) : list Coin :=
  match todo with
  | O => acc
  | S todo' => spawn_loop rnd (S i) todo' (acc ++ [spawn_one rnd i])
  end.

Definition spawnCoins (rnd : nat -> number) : list Coin := spawn_loop rnd 0 20 [].

(** The state once the module body has run. *)
Definition init (eng : Engine) (rnd : nat -> number) : Server :=
  {| engine := eng; nextId := 1%N; players := []; conns := [];
     coins := spawnCoins rnd |}.

(** ** Outgoing frames *)

Definition coin_view (c : Coin) : value :=
  VObj [("id", VStr (c_id c)); ("x", VNum (c_x c)); ("y", VNum (c_y c));
        ("taken", VBool (c_taken c))].

Definition player_view (p : Player) : value :=
  VObj [("id", VStr (p_id p)); ("name", VStr (p_name p)); ("x", VNum (p_x p));
        ("y", VNum (p_y p)); ("bubbleRadius", VNum (p_bubbleRadius p))].

Definition state_payload (now : number) (s : Server) : value :=
  VObj [("type", VStr "state");
        ("t", VNum now);
        ("players", VArr (map (fun rc => player_view (player (snd rc))) (values s)));
        ("coins", VArr (map coin_view (coins s)))].

(** [broadcastState]: one payload, sent to every registered player whose
    socket is open; [now] is the reading of [Date.now()]. *)
Definition broadcastState (now : number) (s : Server) : list Output :=
  omap (fun rc => if is_open (readyState (snd rc))
                  then Some (fst rc, state_payload now s) else None)
       (values s).

(** [send(ws, obj)] with [ws] the socket of connection [r]: on an open
    socket [obj] is serialised by [JSON.stringify], which may throw, and the
    result is handed to the socket. *)
Definition send (r : nat) (obj : value) : handler :=
  fun s =>
    match conns s !! r with
    | Some c =>
        if is_open (readyState c)
        then if stringify_returns (engine s) obj then Normal s [(r, obj)]
             else Throws s []
        else Normal s []
    | None => Normal s []
    end.

Definition welcome (id : string) (s : Server) : value :=
  VObj [("type", VStr "welcome");
        ("id", VStr id);
        ("world", VObj [("w", VNum WORLD_W); ("h", VNum WORLD_H);
                        ("groundY", VNum GROUND_Y)]);
        ("coins", VArr (map coin_view (coins s)))].

End World.

Export World.

(** ** The handlers *)

Module Handlers.

(** Assignments to fields of the player object of connection [k]. *)
Definition set_player (k : nat) (f : Player -> Player) : handler :=
  modify (fun s =>
    {| engine := engine s;
       nextId := nextId s;
       players := players s;
       conns := alter (fun c => mkConn (f (player c)) (readyState c)) k (conns s);
       coins := coins s |}).

Definition set_name (v : string) (p : Player) : Player :=
  mkPlayer (p_id p) v (p_x p) (p_y p) (p_bubbleRadius p).

Definition set_x (v : number) (p : Player) : Player :=
  mkPlayer (p_id p) (p_name p) v (p_y p) (p_bubbleRadius p).

Definition set_y (v : number) (p : Player) : Player :=
  mkPlayer (p_id p) (p_name p) (p_x p) v (p_bubbleRadius p).

Definition set_bubbleRadius (v : number) (p : Player) : Player :=
  mkPlayer (p_id p) (p_name p) (p_x p) (p_y p) v.

(** [if (typeof v === 'number') ...]. *)
Definition when_number (v : value) (h : number -> handler) : handler :=
  match as_number v with Some n => h n | None => skip end.

(** Reading the player object of connection [k]. *)
Definition with_player (k : nat) (h : Player -> handler) : handler :=
  fun s => match conns s !! k with Some c => h (player c) s | None => skip s end.

(** [wss.on('connection')]: the socket of the new connection is open. *)
Definition on_connection (now : number) : handler :=
  fun s =>
    let id := "p" ++ decimal (nextId s) in
    let r := length (conns s) in
    let p := {| p_id := id; p_name := "Pilot" ++ id;
                p_x := div WORLD_W (of_Z 2); p_y := div WORLD_H (of_Z 2);
                p_bubbleRadius := of_Z 120 |} in
    let s1 := {| engine := engine s;
                 nextId := increment (nextId s);
                 players := Map_set id r (players s);
                 conns := conns s ++ [mkConn p OPEN];
                 coins := coins s |} in
    (send r (welcome id s1) >>> emit (broadcastState now)) s1.

(** The [join] branch. *)
Definition join (k : nat) (msg : value) (now : number) : handler :=
  set_player k (fun p =>
    set_name (match as_string (get msg "name") with
              | Some n => slice0 32 n
              | None => p_name p
              end) p) >>>
  when_number (get msg "x") (fun v => set_player k (set_x v)) >>>
  when_number (get msg "y") (fun v => set_player k (set_y v)) >>>
  emit (broadcastState now).

(** [Math.max(lo, Math.min(hi, v))]. *)
Definition clamp (lo hi v : number) : number := Math_max lo (Math_min hi v).

(** The [update] branch. *)
Definition update (k : nat) (msg : value) : handler :=
  when_number (get msg "x")
    (fun v => set_player k (set_x (clamp (of_Z 0) WORLD_W v))) >>>
  when_number (get msg "y")
    (fun v => set_player k (set_y (clamp (of_Z 0) WORLD_H v))) >>>
  when_number (get msg "bubbleRadius")
    (fun v => set_player k (set_bubbleRadius (clamp (of_Z 30) (of_Z 400) v))).

(** [coins.find(c => c.id === coinId)], with the position of the coin
    found: the handler assigns to that very object. *)
Fixpoint find_coin (coinId : value) (l : list Coin) : option (nat * Coin) :=
  match l with
  | [] => None
  | c :: rest =>
      if is_str coinId (c_id c) then Some (O, c)
      else match find_coin coinId rest with
           | Some (i, c') => Some (S i, c')
           | None => None
           end
  end.

Definition mark_taken (c : Coin) : Coin := mkCoin (c_id c) (c_x c) (c_y c) true.

Definition set_taken (i : nat) : handler :=
  modify (fun s =>
    {| engine := engine s; nextId := nextId s; players := players s;
       conns := conns s; coins := alter mark_taken i (coins s) |}).

(** [dx*dx + dy*dy] for [dx = coin.x - player.x], [dy = coin.y - player.y],
    in binary64 arithmetic as the handler computes it. *)
Definition dist2 (c : Coin) (p : Player) : number :=
  let dx := sub (c_x c) (p_x p) in
  let dy := sub (c_y c) (p_y p) in
  add (mul dx dx) (mul dy dy).

(** The [collect] branch. *)
Definition collect (k : nat) (msg : value) (now : number) : handler :=
  fun s =>
    let coinId := get msg "coinId" in
    match find_coin coinId (coins s) with
    | Some (i, coin) =>
        when (negb (c_taken coin))
          (with_player k (fun p =>
             when (lt (dist2 coin p) (mul (of_Z 20) (of_Z 20)))
               (set_taken i >>> emit (broadcastState now)))) s
    | None => skip s
    end.

(** The [signal] branch. *)
Definition signal (k : nat) (msg : value) : handler :=
  fun s =>
    match Map_get (get msg "to") (players s) with
    | Some r =>
        match conns s !! r with
        | Some target =>
            when (is_open (readyState target))
              (with_player k (fun p =>
                 send r (VObj [("type", VStr "signal");
                               ("from", VStr (p_id p));
                               ("data", get msg "data")]))) s
        | None => skip s
        end
    | None => skip s
    end.

(** The [chat] branch.  The local [text] is never read; evaluating its
    initialiser [String(msg.text || '').slice(0, 500)] matters only in that
    [String] may throw, which leaves the handler before [broadcastState]. *)
Definition chat (msg : value) (now : number) : handler :=
  fun s =>
    (when (negb (String_returns (engine s) (or_else (get msg "text") (VStr "")))) throw >>>
     emit (broadcastState now)) s.

(** [ws.on('message')] of connection [k].  [raw] is the outcome of
    [JSON.parse]: [None] when it throws. *)
Definition on_message (k : nat) (raw : option value) (now : number) : handler :=
  match raw with
  | None => skip
  | Some msg =>
      if negb (truthy msg) || negb (truthy (get msg "type")) then skip
      else
        when (is_str (get msg "type") "join") (join k msg now) >>>
        when (is_str (get msg "type") "update") (update k msg) >>>
        when (is_str (get msg "type") "collect") (collect k msg now) >>>
        when (is_str (get msg "type") "signal") (signal k msg) >>>
        when (is_str (get msg "type") "chat") (chat msg now)
  end.

(** [ws.on('close')] of connection [k]; [id] is the constant the handler
    closes over, the id its player object was created with. *)
Definition on_close (k : nat) (now : number) : handler :=
  with_player k (fun p =>
    modify (fun s =>
      {| engine := engine s; nextId := nextId s;
         players := Map_delete (p_id p) (players s);
         conns := conns s; coins := coins s |}) >>>
    emit (broadcastState now)).

(** What happens to the server. *)
Inductive Event : Type :=
| Connection (now : number)
| Message (k : nat) (raw : option value) (now : number)
| Close (k : nat) (now : number)
| Tick (now : number)
| Transport (k : nat) (st : ReadyState).

(** The transport moves the socket of connection [k] to another state. *)
Definition set_readyState (k : nat) (st : ReadyState) : handler :=
  modify (fun s =>
    {| engine := engine s; nextId := nextId s; players := players s;
       conns := alter (fun c => mkConn (player c) st) k (conns s);
       coins := coins s |}).

Definition step (e : Event) : handler :=
  match e with
  | Connection now => on_connection now
  | Message k raw now => on_message k raw now
  | Close k now => on_close k now
  | Tick now => emit (broadcastState now)
  | Transport k st => set_readyState k st
  end.

(** A run of the process: an uncaught exception ends it. *)
Fixpoint run (es : list Event) : handler :=
  match es with
  | [] => skip
  | e :: es' => step e >>> run es'
  end.

(** The states the process can be in. *)
Inductive reachable : Server -> Prop :=
| reachable_init (eng : Engine) (rnd : nat -> number) :
    (forall n, unit_interval (rnd n)) -> reachable (init eng rnd)
| reachable_step (e : Event) (s s' : Server) (out : list Output) :
    reachable s -> step e s = Normal s' out -> reachable s'.

End Handlers.

Export Handlers.

(** ** Notions used in the statements *)

Module Notions.

(** *** States with one field replaced *)

Definition put_conns (l : list Conn) (s : Server) : Server :=
  {| engine := engine s; nextId := nextId s; players := players s; conns := l;
     coins := coins s |}.

Definition put_coins (l : list Coin) (s : Server) : Server :=
  {| engine := engine s; nextId := nextId s; players := players s;
     conns := conns s; coins := l |}.

Definition put_players (m : list (string * nat)) (s : Server) : Server :=
  {| engine := engine s; nextId := nextId s; players := m; conns := conns s;
     coins := coins s |}.

(** A change of the player object inside its connection cell. *)
Definition lift (f : Player -> Player) (c : Conn) : Conn :=
  mkConn (f (player c)) (readyState c).

(** *** Seeding *)

(** A property of the integers [lo, lo + n), checked by evaluation. *)
Definition range_all (lo : Z) (n : nat) (f : Z -> bool) : bool :=
  forallb (fun i => f (lo + Z.of_nat i)) (seq 0 n).

(** The ids [spawnCoins] assigns, in list order. *)
Definition seeded_ids : list string :=
  ["c0"; "c1"; "c2"; "c3"; "c4"; "c5"; "c6"; "c7"; "c8"; "c9"; "c10"; "c11";
   "c12"; "c13"; "c14"; "c15"; "c16"; "c17"; "c18"; "c19"].

(** A coin where seeding puts it: at integer coordinates of the spawn box. *)
Definition placed (c : Coin) : Prop :=
  exists kx ky : Z,
    c_x c = of_Z kx /\ c_y c = of_Z ky /\ 80 <= kx <= 1519 /\ 80 <= ky <= 739.

(** A freshly seeded coin: untaken, placed, and strictly inside the world. *)
Definition seeded (c : Coin) : Prop :=
  c_taken c = false /\
  exists kx ky : Z,
    c_x c = of_Z kx /\ c_y c = of_Z ky /\
    80 <= kx <= 1519 /\ 80 <= ky <= 739 /\
    lt (of_Z 0) (c_x c) = true /\ lt (c_x c) WORLD_W = true /\
    lt (of_Z 0) (c_y c) = true /\ lt (c_y c) WORLD_H = true.

(** *** Messages *)

(** The kinds of message the dispatcher knows. *)
Definition known_types : list string := ["join"; "update"; "collect"; "signal"; "chat"].

(** A frame the dispatcher drops: unparseable, falsy, without a truthy
    [type], or of a type that is none of the known strings. *)
Definition dropped (raw : option value) : Prop :=
  match raw with
  | None => True
  | Some msg =>
      truthy msg = false \/ truthy (get msg "type") = false \/
      forall t, In t known_types -> is_str (get msg "type") t = false
  end.

(** An [update] message of connection [k], as [JSON.parse] delivers it. *)
Definition update_event (k : nat) (e : Event) : Prop :=
  exists msg now,
    e = Message k (Some msg) now /\ from_JSON msg = true /\
    get msg "type" = VStr "update".

(** The frame a [signal] message is relayed as. *)
Definition signal_frame (from : string) (data : value) : value :=
  VObj [("type", VStr "signal"); ("from", VStr from); ("data", data)].

(** A chat frame whose [text] is an object with an own [toString]
    property, as [JSON.parse] returns it for
    [{"type":"chat","text":{"toString":1}}]. *)
Definition poisoned_chat : value :=
  VObj [("type", VStr "chat"); ("text", VObj [("toString", VNum (of_Z 1))])].

(** *** Players *)

(** The range the [update] branch keeps a player in. *)
Definition in_bounds (p : Player) : Prop :=
  (le (of_Z 0) (p_x p) = true /\ le (p_x p) WORLD_W = true) /\
  (le (of_Z 0) (p_y p) = true /\ le (p_y p) WORLD_H = true) /\
  (le (of_Z 30) (p_bubbleRadius p) = true /\ le (p_bubbleRadius p) (of_Z 400) = true).

(** What the [update] branch makes of a player object. *)
Definition updated (msg : value) (p : Player) : Player :=
  {| p_id := p_id p;
     p_name := p_name p;
     p_x := match as_number (get msg "x") with
            | Some v => clamp (of_Z 0) WORLD_W v
            | None => p_x p
            end;
     p_y := match as_number (get msg "y") with
            | Some v => clamp (of_Z 0) WORLD_H v
            | None => p_y p
            end;
     p_bubbleRadius := match as_number (get msg "bubbleRadius") with
                       | Some v => clamp (of_Z 30) (of_Z 400) v
                       | None => p_bubbleRadius p
                       end |}.

(** What the [join] branch makes of a player object. *)
Definition joined (msg : value) (p : Player) : Player :=
  {| p_id := p_id p;
     p_name := match as_string (get msg "name") with
               | Some n => slice0 32 n
               | None => p_name p
               end;
     p_x := match as_number (get msg "x") with Some v => v | None => p_x p end;
     p_y := match as_number (get msg "y") with Some v => v | None => p_y p end;
     p_bubbleRadius := p_bubbleRadius p |}.

(** *** Integers as Numbers *)

(** The Number with sign [sg] and magnitude [V], for an integer magnitude
    below 2^53: the mantissa is [V] shifted to 53 binary digits. *)
Definition canonical (sg : bool) (V : positive) : number :=
  S754_finite sg (Z.to_pos (Zpos V * 2 ^ (53 - Zpos (digits2_pos V))))
    (Zpos (digits2_pos V) - 53).

(** *** Connections *)

(** The id, the player object and the state a new connection gets. *)
Definition fresh_id (s : Server) : string := "p" ++ decimal (nextId s).

Definition fresh_player (s : Server) : Player :=
  {| p_id := fresh_id s; p_name := "Pilot" ++ fresh_id s;
     p_x := of_Z 800; p_y := of_Z 450; p_bubbleRadius := of_Z 120 |}.

Definition connected (s : Server) : Server :=
  {| engine := engine s;
     nextId := increment (nextId s);
     players := Map_set (fresh_id s) (length (conns s)) (players s);
     conns := conns s ++ [mkConn (fresh_player s) OPEN];
     coins := coins s |}.

(** The ids of all player objects created so far, oldest first. *)
Definition ids (s : Server) : list string := map (fun c => p_id (player c)) (conns s).

(** The value of the counter once [n] connections have been accepted. *)
Definition counter_after (n : nat) : N := N.min (N.of_nat (S n)) counter_max.

(** The id of the [n]-th connection accepted, counting from 0. *)
Definition nth_id (n : nat) : string := "p" ++ decimal (counter_after n).

(** *** Effects and invariants *)

(** What one event can do to the state: nothing, change the player object
    or the socket state of one connection while keeping its id, mark one
    untaken coin as taken, remove one key from the Map, or accept a
    connection. *)
Inductive effect (s : Server) : Server -> Prop :=
| effect_none : effect s s
| effect_player (k : nat) (g : Conn -> Conn) :
    (forall c, p_id (player (g c)) = p_id (player c)) ->
    effect s (put_conns (alter g k (conns s)) s)
| effect_coin (i : nat) (coin : Coin) :
    coins s !! i = Some coin -> c_taken coin = false ->
    effect s (put_coins (alter mark_taken i (coins s)) s)
| effect_leave (id : string) :
    effect s (put_players (Map_delete id (players s)) s)
| effect_enter : effect s (connected s).

(** What holds in every reachable state. *)
Record consistent (s : Server) : Prop := {
  coin_ids : map c_id (coins s) = seeded_ids;
  coin_places : List.Forall placed (coins s);
  counter_value : nextId s = counter_after (length (conns s));
  ids_in_order : ids s = map nth_id (seq 0 (length (conns s)));
  registry_sound : forall id r, In (id, r) (players s) ->
    exists c, conns s !! r = Some c /\ p_id (player c) = id;
  registry_keys : List.NoDup (map fst (players s))
}.

(** *** A sample run *)

(** Every draw of [Math.random] is +0, so every coin sits at (80, 80). *)
Definition rnd0 : nat -> number := fun _ => S754_zero false.

(** The clock reading used in the sample run. *)
Definition t0 : number := of_Z 1000.

(** An engine that serialises a thousand levels beyond the server's own
    frames and converts a thousand arrays inside one another. *)
Definition engine0 : Engine := {| stringify_room := 1000; join_room := 1000 |}.

(** The state after start-up in the sample run. *)
Definition start : Server := init engine0 rnd0.

(** One client connected, then a second one. *)
Definition one_client : Server := final (on_connection t0 start).

Definition two_clients : Server := final (on_connection t0 one_client).

(** A message object with the given fields. *)
Definition message (kind : string) (fields : list (string * value)) : value :=
  VObj (("type", VStr kind) :: fields).


(** The first client has moved onto coin c0, and then collected it. *)
Definition at_coin : Server :=
  final (on_message 0 (Some (message "join" [("x", VNum (of_Z 80)); ("y", VNum (of_Z 80))]))
           t0 one_client).

Definition coin_collected : Server :=
  final (on_message 0 (Some (message "collect" [("coinId", VStr "c0")])) t0 at_coin).

(** Two updates with values outside the world. *)
Definition sample_updates : list Event :=
  [Message 0 (Some (message "update" [("x", VNum (of_Z 5000));
                                      ("bubbleRadius", VNum (of_Z 9999))])) t0;
   Message 0 (Some (message "update" [("y", VNum (S754_infinity true))])) t0].

(** *** Notions for the further properties *)

(** The value the [update] branch stores for a field it clamps to
    [lo, hi], given the number [v] it received. *)
Definition stored (lo hi v r : number) : Prop :=
  (lt lo v = true -> lt v hi = true -> r = v) /\
  (lt hi v = true -> r = hi) /\
  (lt v lo = true -> r = lo).

(** The events of clients leaving, one [Close] per pair. *)
Definition closes (ks : list (nat * number)) : list Event :=
  map (fun kn => Close (fst kn) (snd kn)) ks.

(** The events of clients arriving. *)
Definition opens (nows : list number) : list Event := map Connection nows.

(** A frame the server may send: to an open socket of the state reached,
    and of one of the three kinds of the protocol. *)
Definition deliverable (s : Server) (o : Output) : Prop :=
  (exists c, conns s !! fst o = Some c /\ readyState c = OPEN) /\
  In (get (snd o) "type") [VStr "welcome"; VStr "state"; VStr "signal"].

(** A value without objects or arrays inside: [String] converts it. *)
Definition primitive (v : value) : bool :=
  match v with VArr _ | VObj _ => false | _ => true end.

(** The first client has joined at x = 5000, outside the world, and then
    sends an [update] that carries only y. *)
Definition join_outside : value := message "join" [("x", VNum (of_Z 5000))].

Definition outside : Server := final (on_message 0 (Some join_outside) t0 one_client).

Definition update_y : value := message "update" [("y", VNum (of_Z 20))].

(** The real number a finite Number stands for. *)
Definition exact (x : number) : option Q :=
  match x with
  | S754_zero _ => Some 0%Q
  | S754_finite sg m e => Some (inject_Z (cond_Zopp sg (Zpos m)) * 2 ^ e)%Q
  | _ => None
  end.

(** The squared Euclidean distance between a coin and a player, in exact
    arithmetic. *)
Definition sqdist (c : Coin) (p : Player) : option Q :=
  match exact (c_x c), exact (c_y c), exact (p_x p), exact (p_y p) with
  | Some cx, Some cy, Some px, Some py =>
      Some ((cx - px) * (cx - px) + (cy - py) * (cy - py))%Q
  | _, _, _, _ => None
  end.





(** [n] arrays inside one another, around [null]. *)
Definition nested (n : nat) : value := Nat.iter n (fun v => VArr [v]) VNull.

(** A [signal] message for player [to] whose data is nested [n] levels. *)
Definition deep_signal (to : string) (n : nat) : value :=
  message "signal" [("to", VStr to); ("data", nested n)].

(** The first client has joined far outside the world. *)
Definition far_away : Server :=
  final (on_message 0 (Some (message "join" [("x", VNum (of_Z 5000)); ("y", VNum (of_Z (-7)))]))
           t0 one_client).

(** An [update] message with all three fields. *)
Definition full_update : value :=
  message "update" [("x", VNum (of_Z 10)); ("y", VNum (of_Z 20));
                    ("bubbleRadius", VNum (of_Z 50))].

End Notions.

Export Notions.

(** ** Facts about numbers *)

Module NumFacts.

(** *** Comparison and clamping *)

Lemma SFcompare_antisym (a b : number) (c : comparison) :
  SFcompare a b = Some c -> SFcompare b a = Some (CompOpp c).
Proof.
  destruct a as [sa|sa| |sa ma ea], b as [sb|sb| |sb mb eb]; simpl;
    try discriminate; intros [= <-]; f_equal;
    try (destruct sa; reflexivity); try (destruct sb; reflexivity);
    try (destruct sa, sb; reflexivity).
  rewrite (Z.compare_antisym ea eb).
  pose proof (Pos.compare_cont_antisym ma mb Eq) as H; simpl in H.
  destruct sa, sb; simpl; try reflexivity;
    destruct (ea ?= eb); simpl; try reflexivity; rewrite <- H;
    destruct (Pos.compare_cont Eq ma mb); reflexivity.
Qed.

Lemma SFcompare_refl (a : number) : is_nan a = false -> SFcompare a a = Some Eq.
Proof.
  destruct a as [s|s| |s m e]; simpl; try discriminate; intros _.
  - reflexivity.
  - destruct s; reflexivity.
  - rewrite Z.compare_refl, Pos.compare_cont_refl. destruct s; reflexivity.
Qed.

Lemma SFcompare_None (a b : number) :
  SFcompare a b = None -> is_nan a = true \/ is_nan b = true.
Proof.
  destruct a as [sa|sa| |sa ma ea], b as [sb|sb| |sb mb eb]; simpl;
    try discriminate; auto.
Qed.

Lemma le_of_compare (a b : number) (c : comparison) :
  SFcompare a b = Some c -> c <> Gt -> le a b = true.
Proof. unfold le, SFleb. intros -> H. destruct c; congruence. Qed.

Lemma le_of_compare_Gt (a b : number) :
  SFcompare a b = Some Gt -> le b a = true.
Proof.
  intros H. apply SFcompare_antisym in H.
  apply (le_of_compare _ _ _ H). discriminate.
Qed.

Lemma le_of_compare_Eq (a b : number) :
  SFcompare a b = Some Eq -> le b a = true.
Proof.
  intros H. apply SFcompare_antisym in H.
  apply (le_of_compare _ _ _ H). discriminate.
Qed.

Lemma le_refl (a : number) : is_nan a = false -> le a a = true.
Proof. intros H. apply (le_of_compare _ _ _ (SFcompare_refl a H)). discriminate. Qed.

Lemma le_not_nan (a b : number) : le a b = true -> is_nan a = false /\ is_nan b = false.
Proof.
  unfold le, SFleb. destruct a, b; simpl; try discriminate; auto.
Qed.

Lemma Math_max_bounds (lo hi v : number) :
  le lo hi = true -> le v hi = true ->
  le lo (Math_max lo v) = true /\ le (Math_max lo v) hi = true.
Proof.
  intros Hlh Hv.
  destruct (le_not_nan _ _ Hlh) as [Hlo _].
  unfold Math_max. destruct (SFcompare lo v) as [[]|] eqn:E.
  - assert (le lo v = true) by (apply (le_of_compare _ _ _ E); discriminate).
    destruct lo as [[]| | |]; auto using le_refl.
  - split; [apply (le_of_compare _ _ _ E); discriminate | assumption].
  - split; [apply le_refl; assumption | assumption].
  - apply SFcompare_None in E. destruct (le_not_nan _ _ Hv). destruct E; congruence.
Qed.

Lemma Math_min_le (hi v : number) :
  is_nan hi = false -> is_nan v = false -> le (Math_min hi v) hi = true.
Proof.
  intros Hhi Hv. unfold Math_min. destruct (SFcompare hi v) as [[]|] eqn:E.
  - assert (le v hi = true) by (apply le_of_compare_Eq; assumption).
    destruct hi as [[]| | |]; auto using le_refl.
  - apply le_refl; assumption.
  - apply le_of_compare_Gt; assumption.
  - apply SFcompare_None in E. destruct E; congruence.
Qed.

Lemma clamp_bounds (lo hi v : number) :
  le lo hi = true -> is_nan v = false ->
  le lo (clamp lo hi v) = true /\ le (clamp lo hi v) hi = true.
Proof.
  intros Hlh Hv. destruct (le_not_nan _ _ Hlh) as [_ Hhi].
  apply Math_max_bounds; [assumption | apply Math_min_le; assumption].
Qed.

Lemma clamp_NaN (lo hi : number) : clamp lo hi NaN = NaN.
Proof. unfold clamp, Math_min, Math_max. destruct hi, lo; reflexivity. Qed.

(** *** Rounding of a product

    [binary_round_aux] shifts the exact product right, rounds to nearest
    even and renormalises.  The lemmas below follow the mantissa through
    these steps far enough to bound the rounded value from above. *)

Lemma digits2_pos_bounds (m : positive) :
  2 ^ (Zpos (digits2_pos m) - 1) <= Zpos m < 2 ^ Zpos (digits2_pos m).
Proof.
  induction m as [p IH|p IH|]; cbn [digits2_pos].
  - rewrite Pos2Z.inj_succ.
    replace (Z.succ (Zpos (digits2_pos p)) - 1) with (Z.succ (Zpos (digits2_pos p) - 1)) by lia.
    rewrite !Z.pow_succ_r by lia. lia.
  - rewrite Pos2Z.inj_succ.
    replace (Z.succ (Zpos (digits2_pos p)) - 1) with (Z.succ (Zpos (digits2_pos p) - 1)) by lia.
    rewrite !Z.pow_succ_r by lia. lia.
  - simpl. lia.
Qed.

Lemma digits2_pos_le (m : positive) (k : Z) :
  0 <= k -> Zpos m < 2 ^ k -> Zpos (digits2_pos m) <= k.
Proof.
  intros Hk Hm. destruct (digits2_pos_bounds m) as [Hlo _].
  destruct (Z_le_gt_dec (Zpos (digits2_pos m)) k) as [|Hgt]; [assumption|].
  assert (2 ^ k <= 2 ^ (Zpos (digits2_pos m) - 1)) by (apply Z.pow_le_mono_r; lia).
  lia.
Qed.

Lemma iter_pos_nat {A : Type} (f : A -> A) (p : positive) (x : A) :
  SpecFloat.iter_pos f p x = Nat.iter (Pos.to_nat p) f x.
Proof.
  revert x. induction p as [p IH|p IH|]; intros x; cbn [SpecFloat.iter_pos].
  - rewrite !IH, Pos2Nat.inj_xI.
    replace (S (2 * Pos.to_nat p)) with (Pos.to_nat p + (Pos.to_nat p + 1))%nat by lia.
    rewrite !Nat.iter_add. reflexivity.
  - rewrite !IH, Pos2Nat.inj_xO.
    replace (2 * Pos.to_nat p)%nat with (Pos.to_nat p + Pos.to_nat p)%nat by lia.
    rewrite Nat.iter_add. reflexivity.
  - reflexivity.
Qed.

Lemma shr_1_spec (R : shr_record) :
  0 <= shr_m R ->
  shr_m (shr_1 R) = shr_m R / 2 /\ shr_r (shr_1 R) = Z.odd (shr_m R).
Proof.
  destruct R as [m r s]; cbn [shr_m]. intros Hm.
  destruct m as [|[p|p|]|p]; cbn; try lia; split; try reflexivity.
  - rewrite Pos2Z.inj_xI. apply Z.div_unique with 1; lia.
  - rewrite Pos2Z.inj_xO. apply Z.div_unique with 0; lia.
Qed.

Lemma shr_iter_spec (n : nat) (R : shr_record) :
  0 <= shr_m R ->
  shr_m (Nat.iter (S n) shr_1 R) = shr_m R / 2 ^ Z.of_nat (S n) /\
  shr_r (Nat.iter (S n) shr_1 R) = Z.odd (shr_m R / 2 ^ Z.of_nat n).
Proof.
  intros Hm.
  assert (Hpow : forall k, 0 < 2 ^ Z.of_nat k) by (intros; apply Z.pow_pos_nonneg; lia).
  assert (Hall : forall k, shr_m (Nat.iter k shr_1 R) = shr_m R / 2 ^ Z.of_nat k).
  { induction k as [|k IH].
    - simpl. now rewrite Z.div_1_r.
    - rewrite Nat.iter_succ.
      assert (Hk : 0 <= shr_m (Nat.iter k shr_1 R))
        by (rewrite IH; apply Z.div_pos; [assumption | apply Hpow]).
      destruct (shr_1_spec _ Hk) as [-> _].
      rewrite IH, Nat2Z.inj_succ, Z.pow_succ_r, Z.mul_comm by lia.
      rewrite Z.div_div; [reflexivity| |lia].
      specialize (Hpow k). lia. }
  split; [apply Hall|].
  rewrite Nat.iter_succ.
  assert (Hn : 0 <= shr_m (Nat.iter n shr_1 R))
    by (rewrite Hall; apply Z.div_pos; [assumption | apply Hpow]).
  destruct (shr_1_spec _ Hn) as [_ ->]. now rewrite Hall.
Qed.

Lemma round_up_bound (m : Z) (k : nat) :
  0 <= m -> Z.odd (m / 2 ^ Z.of_nat k) = true ->
  2 * (m / 2 ^ Z.of_nat (S k) + 1) * 2 ^ Z.of_nat (S k) <= 2 * m + 2 ^ Z.of_nat (S k).
Proof.
  intros Hm Hodd.
  assert (HT : 0 < 2 ^ Z.of_nat k) by (apply Z.pow_pos_nonneg; lia).
  rewrite Nat2Z.inj_succ, Z.pow_succ_r by lia.
  set (T := 2 ^ Z.of_nat k) in *.
  rewrite (Z.mul_comm 2 T), <- Z.div_div by lia.
  set (q := m / T) in *.
  assert (Hq : q * T <= m) by (unfold q; rewrite Z.mul_comm; apply Z.mul_div_le; lia).
  rewrite (Zodd_bool_iff q) in Hodd. apply Zodd_ex in Hodd as [h Hh].
  replace (q / 2) with h by (apply Z.div_unique with 1; lia).
  nia.
Qed.

Lemma shr_exact_spec (m e n : Z) (R : shr_record) (e' : Z) :
  0 <= m ->
  shr (Build_shr_record m false false) e n = (R, e') ->
  let n' := Z.max n 0 in
  let m2 := round_nearest_even (shr_m R) (loc_of_shr_record R) in
  e' = e + n' /\ shr_m R = m / 2 ^ n' /\ shr_m R <= m2 /\
  2 * m2 * 2 ^ n' <= 2 * m + 2 ^ n'.
Proof.
  intros Hm Hshr n' m2. subst n' m2.
  destruct n as [|p|p]; cbn [shr] in Hshr; injection Hshr as <- <-.
  1, 3: rewrite Z.max_r by lia; cbn [shr_m loc_of_shr_record round_nearest_even];
    rewrite Z.pow_0_r, Z.div_1_r; repeat split; lia.
  rewrite iter_pos_nat.
  destruct (Pos2Nat.is_succ p) as [k Hk]. rewrite Hk.
  assert (Hp : Z.pos p = Z.of_nat (S k)) by lia.
  rewrite Z.max_l, Hp by lia.
  destruct (shr_iter_spec k (Build_shr_record m false false) Hm) as [H1 H2].
  cbn [shr_m] in H1, H2.
  assert (Hpow : 0 < 2 ^ Z.of_nat (S k)) by (apply Z.pow_pos_nonneg; lia).
  assert (Hdiv : 0 <= m / 2 ^ Z.of_nat (S k)) by (apply Z.div_pos; lia).
  assert (Hle : m / 2 ^ Z.of_nat (S k) * 2 ^ Z.of_nat (S k) <= m)
    by (rewrite Z.mul_comm; apply Z.mul_div_le; lia).
  destruct (Nat.iter (S k) shr_1 _) as [m1 r s]; cbn [shr_m shr_r] in *. subst m1.
  split; [reflexivity|]. split; [reflexivity|].
  destruct r.
  - symmetry in H2. pose proof (round_up_bound m k Hm H2) as Hup.
    destruct s; cbn [loc_of_shr_record round_nearest_even].
    + split; [lia | lia].
    + destruct (Z.even _); split; lia.
  - destruct s; cbn [loc_of_shr_record round_nearest_even]; split; lia.
Qed.

Lemma pow2_split (a b : Z) : 0 <= a -> 0 <= b -> 2 ^ (a + b) = 2 ^ a * 2 ^ b.
Proof. intros. apply Z.pow_add_r; assumption. Qed.

Lemma round_below (P : positive) (E K : Z) :
  let n' := Z.max (fexp prec emax (Zdigits2 (Zpos P) + E) - E) 0 in
  E + n' < 0 -> 0 < K <= 2 ^ 52 ->
  2 * Zpos P + 2 ^ n' < 2 * K * 2 ^ (- E) ->
  let x := binary_round_aux prec emax false (Zpos P) E loc_Exact in
  x = S754_zero false \/
  exists m3 e3, x = S754_finite false m3 e3 /\ e3 < 0 /\ Zpos m3 < K * 2 ^ (- e3).
Proof.
  intros n' He1 HK HP x. subst x. unfold binary_round_aux, shr_fexp.
  cbn [shr_record_of_loc].
  destruct (shr _ E _) as [R1 e1] eqn:S1.
  apply shr_exact_spec in S1; [|lia]. fold n' in S1.
  destruct S1 as (-> & Hm1 & Hle1 & Hup1).
  set (m2 := round_nearest_even (shr_m R1) (loc_of_shr_record R1)) in *.
  assert (Hn' : 0 <= n') by (unfold n'; lia).
  assert (Hpn : 0 < 2 ^ n') by (apply Z.pow_pos_nonneg; lia).
  assert (Hm1' : 0 <= shr_m R1) by (rewrite Hm1; apply Z.div_pos; lia).
  assert (Hm2 : 0 <= m2) by lia.
  set (e1 := E + n') in *.
  assert (HE : 2 ^ (- E) = 2 ^ (- e1) * 2 ^ n').
  { rewrite <- pow2_split by lia. f_equal. unfold e1. lia. }
  assert (Hpe1 : 0 < 2 ^ (- e1)) by (apply Z.pow_pos_nonneg; lia).
  assert (Hm2K : m2 < K * 2 ^ (- e1)) by (rewrite HE in HP; nia).
  assert (Hdig : Zdigits2 m2 + e1 < 53).
  { destruct m2 as [|q|q]; cbn [Zdigits2]; [lia| |lia].
    assert (Z.pos (digits2_pos q) <= 52 - e1); [|lia].
    apply digits2_pos_le; [lia|].
    replace (52 - e1) with (52 + - e1) by lia. rewrite pow2_split by lia. nia. }
  destruct (shr _ e1 _) as [R2 e3] eqn:S2.
  apply shr_exact_spec in S2; [|lia].
  destruct S2 as (-> & Hm3 & _ & _).
  set (n2 := Z.max (fexp prec emax (Zdigits2 m2 + e1) - e1) 0) in *.
  assert (Hn2 : 0 <= n2) by (unfold n2; lia).
  assert (He3 : e1 + n2 < 0).
  { unfold n2, fexp, SpecFloat.emin, prec, emax. lia. }
  assert (Hpn2 : 0 < 2 ^ n2) by (apply Z.pow_pos_nonneg; lia).
  assert (Hle3 : shr_m R2 * 2 ^ n2 <= m2)
    by (rewrite Hm3, Z.mul_comm; apply Z.mul_div_le; lia).
  assert (HE3 : 2 ^ (- e1) = 2 ^ (- (e1 + n2)) * 2 ^ n2).
  { rewrite <- pow2_split by lia. f_equal. lia. }
  assert (Hpe3 : 0 < 2 ^ (- (e1 + n2))) by (apply Z.pow_pos_nonneg; lia).
  assert (Hm3' : 0 <= shr_m R2) by (rewrite Hm3; apply Z.div_pos; lia).
  destruct (shr_m R2) as [|m3|m3] eqn:Em3; [left; reflexivity| |lia].
  right. exists m3, (e1 + n2).
  replace (e1 + n2 <=? emax - prec) with true
    by (symmetry; apply Z.leb_le; unfold emax, prec; lia).
  split; [reflexivity|]. split; [assumption|].
  rewrite HE3 in Hm2K. nia.
Qed.

Lemma of_Z_1 : of_Z 1 = S754_finite false 4503599627370496 (-52).
Proof. vm_compute. reflexivity. Qed.

Lemma pow2_52 : 2 ^ 52 = 4503599627370496.
Proof. vm_compute. reflexivity. Qed.

Lemma pow2_53 : 2 ^ 53 = 9007199254740992.
Proof. vm_compute. reflexivity. Qed.

Lemma unit_interval_finite (mx : positive) (ex : Z) :
  valid (S754_finite false mx ex) = true ->
  lt (S754_finite false mx ex) (of_Z 1) = true ->
  -1074 <= ex <= -53 /\ Zpos mx < 2 ^ 53.
Proof.
  unfold valid, valid_binary, bounded, canonical_mantissa, fexp, SpecFloat.emin, prec, emax.
  intros Hv Hlt. apply andb_true_iff in Hv as [Hc _]. apply Z.eqb_eq in Hc.
  destruct (digits2_pos_bounds mx) as [Hlo Hhi].
  assert (Hd : Zpos (digits2_pos mx) <= 53) by lia.
  assert (Hm : Zpos mx < 2 ^ 53).
  { apply Z.lt_le_trans with (1 := Hhi). apply Z.pow_le_mono_r; lia. }
  split; [|assumption]. split; [lia|].
  rewrite of_Z_1 in Hlt.
  unfold lt, SFltb, SFcompare in Hlt.
  destruct (ex ?= -52) eqn:Ec; try discriminate.
  - apply Z.compare_eq in Ec.
    assert (Hd53 : Zpos (digits2_pos mx) = 53) by lia.
    rewrite Hd53 in Hlo. replace (53 - 1) with 52 in Hlo by lia.
    rewrite pow2_52 in Hlo.
    destruct (Pos.compare_cont Eq mx 4503599627370496) eqn:Em; try discriminate.
    apply (proj1 (Pos.compare_lt_iff mx 4503599627370496)) in Em. assert (Em2 : Z.pos mx < 4503599627370496) by exact Em. clear - Em2 Hlo. lia.
  - assert (Ec2 : ex < -52) by exact Ec. lia.
Qed.

Lemma floor_mul_random (r : number) (K : Z) (my : positive) (ey : Z) :
  unit_interval r ->
  of_Z K = S754_finite false my ey ->
  2 ^ 52 < Zpos my < 2 ^ 53 -> -53 <= ey <= -1 -> Zpos my = K * 2 ^ (- ey) ->
  exists k, 0 <= k < K /\ Math_floor (mul r (of_Z K)) = of_Z k.
Proof.
  intros Hr HK Hmy Hey HKmy. rewrite HK.
  assert (Hpey : 2 <= 2 ^ (- ey)).
  { rewrite <- (Z.pow_1_r 2) at 1. apply Z.pow_le_mono_r; lia. }
  assert (HK0 : 0 < K) by nia.
  destruct Hr as [->|(mx & ex & -> & Hv & Hlt)].
  { exists 0. split; [lia | reflexivity]. }
  destruct (unit_interval_finite mx ex Hv Hlt) as [Hex Hmx].
  unfold mul, SFmul. cbn [xorb].
  set (P := (mx * my)%positive). set (E := ex + ey).
  assert (HP : Zpos P = Zpos mx * Zpos my) by reflexivity.
  assert (Hd : Zpos (digits2_pos P) <= 106).
  { apply digits2_pos_le; [lia|]. replace 106 with (53 + 53) by lia. rewrite pow2_split by lia. nia. }
  assert (Hpex : 2 ^ 53 <= 2 ^ (- ex)) by (apply Z.pow_le_mono_r; lia).
  assert (HpE : 2 ^ (- E) = 2 ^ (- ex) * 2 ^ (- ey)).
  { rewrite <- pow2_split by lia. f_equal. unfold E. lia. }
  destruct (round_below P E K) as [Hz|(m3 & e3 & Hx & He3 & Hm3)].
  - cbn [Zdigits2]. unfold fexp, SpecFloat.emin, prec, emax, E. lia.
  - split; [lia|]. replace 53 with (52 + 1) in Hmy by lia. rewrite pow2_split in Hmy by lia. change (2 ^ 1) with 2 in Hmy. nia.
  - cbn [Zdigits2].
    set (n' := Z.max _ 0).
    assert (Hn' : 0 <= n' <= 53)
      by (unfold n', fexp, SpecFloat.emin, prec, emax, E; lia).
    assert (Hpn : 2 ^ n' <= 2 ^ 53) by (apply Z.pow_le_mono_r; lia).
    rewrite HpE, HP. nia.
  - rewrite Hz. exists 0. split; [lia | reflexivity].
  - rewrite Hx. exists (Zpos m3 / 2 ^ (- e3)).
    assert (Hp3 : 0 < 2 ^ (- e3)) by (apply Z.pow_pos_nonneg; lia).
    split; [split|].
    + apply Z.div_pos; lia.
    + apply Z.div_lt_upper_bound; [assumption | lia].
    + unfold Math_floor. replace (0 <=? e3) with false by (symmetry; apply Z.leb_gt; lia).
      reflexivity.
Qed.

(** *** Integers

    Binary64 arithmetic is exact on integers as long as the results stay
    below 2^53: what is rounded is an integer that already fits the 53
    digits of the mantissa. *)

Lemma digits2_pos_unique (p : positive) (d : Z) :
  2 ^ (d - 1) <= Zpos p < 2 ^ d -> Zpos (digits2_pos p) = d.
Proof.
  intros [Hlo Hhi]. destruct (digits2_pos_bounds p) as [Dlo Dhi].
  set (D := Zpos (digits2_pos p)) in *.
  assert (HD : 0 < D) by (unfold D; lia).
  assert (Hd : 0 < d).
  { destruct (Z_lt_le_dec 0 d) as [|Hn]; [assumption|].
    rewrite Z.pow_neg_r in Hlo by lia. 
    destruct (Z.eq_dec d 0) as [->|]; [simpl in Hhi; lia|].
    rewrite Z.pow_neg_r in Hhi by lia. lia. }
  destruct (Z.lt_trichotomy D d) as [H|[H|H]]; [|assumption|].
  - assert (2 ^ D <= 2 ^ (d - 1)) by (apply Z.pow_le_mono_r; lia). lia.
  - assert (2 ^ d <= 2 ^ (D - 1)) by (apply Z.pow_le_mono_r; lia). lia.
Qed.

Lemma Zdigits2_shift (p q : positive) (k : Z) :
  0 <= k -> Zpos q = Zpos p * 2 ^ k ->
  Zpos (digits2_pos q) = Zpos (digits2_pos p) + k.
Proof.
  intros Hk E. apply digits2_pos_unique. rewrite E.
  destruct (digits2_pos_bounds p) as [Dlo Dhi].
  set (D := Zpos (digits2_pos p)) in *.
  assert (HD : 0 < D) by (unfold D; lia).
  replace (D + k - 1) with ((D - 1) + k) by lia.
  rewrite !pow2_split by lia.
  assert (0 < 2 ^ k) by (apply Z.pow_pos_nonneg; lia).
  nia.
Qed.

Lemma iter_xO (p d : positive) : Zpos (Pos.iter xO p d) = Zpos p * 2 ^ Zpos d.
Proof.
  induction d as [|d IH] using Pos.peano_ind.
  - cbn [Pos.iter]. rewrite Z.pow_1_r. lia.
  - rewrite Pos.iter_succ, Pos2Z.inj_xO, IH, Pos2Z.inj_succ, Z.pow_succ_r by lia. lia.
Qed.

Lemma shl_align_spec (m : positive) (e e' : Z) :
  e' <= e -> Zpos (fst (shl_align m e e')) = Zpos m * 2 ^ (e - e').
Proof.
  intros H. unfold shl_align. destruct (e' - e) as [|d|d] eqn:E; cbn [fst]; try lia.
  - replace (e - e') with 0 by lia. rewrite Z.pow_0_r. lia.
  - rewrite iter_xO. f_equal. f_equal. lia.
Qed.

Lemma shr_exact_iter (n : nat) (m : Z) :
  0 <= m ->
  Nat.iter n shr_1 (Build_shr_record (m * 2 ^ Z.of_nat n) false false)
    = Build_shr_record m false false.
Proof.
  revert m. induction n as [|n IH]; intros m Hm.
  - cbn [Nat.iter]. rewrite Z.pow_0_r, Z.mul_1_r. reflexivity.
  - rewrite Nat.iter_succ.
    replace (m * 2 ^ Z.of_nat (S n)) with ((2 * m) * 2 ^ Z.of_nat n)
      by (rewrite Nat2Z.inj_succ, Z.pow_succ_r by lia; lia).
    rewrite IH by lia. destruct m as [|p|p]; [reflexivity|reflexivity|lia].
Qed.

Lemma shr_exact (m e n : Z) :
  0 <= m -> 0 <= n ->
  shr (Build_shr_record (m * 2 ^ n) false false) e n
    = (Build_shr_record m false false, e + n).
Proof.
  intros Hm Hn. destruct n as [|p|p]; cbn [shr]; [| |lia].
  - rewrite Z.pow_0_r, Z.mul_1_r, Z.add_0_r. reflexivity.
  - rewrite iter_pos_nat. f_equal.
    replace (Z.pos p) with (Z.of_nat (Pos.to_nat p)) by lia.
    now apply shr_exact_iter.
Qed.

Lemma fexp_normal (d : Z) : 0 <= d -> fexp prec emax d = d - 53.
Proof. intros H. unfold fexp, SpecFloat.emin, prec, emax. lia. Qed.

Lemma round_aux_exact (sg : bool) (P M : positive) (E n : Z) :
  0 <= n -> Zpos P = Zpos M * 2 ^ n ->
  fexp prec emax (Zpos (digits2_pos P) + E) - E = n ->
  E + n <= emax - prec ->
  binary_round_aux prec emax sg (Zpos P) E loc_Exact = S754_finite sg M (E + n).
Proof.
  intros Hn HP Hf Hb. unfold binary_round_aux, shr_fexp.
  cbn [shr_record_of_loc Zdigits2]. rewrite Hf, HP, shr_exact by lia.
  cbn [shr_m loc_of_shr_record round_nearest_even shr_record_of_loc Zdigits2].
  rewrite (Zdigits2_shift M P n Hn HP) in Hf.
  replace (fexp prec emax (Z.pos (digits2_pos M) + (E + n)) - (E + n)) with 0
    by (replace (Z.pos (digits2_pos M) + (E + n)) with (Z.pos (digits2_pos M) + n + E) by lia; lia).
  cbn [shr shr_m].
  now rewrite (proj2 (Z.leb_le _ _) Hb).
Qed.

Lemma digits_53 (V : positive) : Zpos V < 2 ^ 53 -> 1 <= Zpos (digits2_pos V) <= 53.
Proof. intros H. split; [lia | apply digits2_pos_le; [lia | assumption]]. Qed.

Lemma canonical_mantissa_eq (V : positive) :
  Zpos V < 2 ^ 53 ->
  Zpos (Z.to_pos (Zpos V * 2 ^ (53 - Zpos (digits2_pos V))))
    = Zpos V * 2 ^ (53 - Zpos (digits2_pos V)).
Proof.
  intros H. destruct (digits_53 V H).
  assert (0 < 2 ^ (53 - Zpos (digits2_pos V))) by (apply Z.pow_pos_nonneg; lia).
  rewrite Z2Pos.id; [reflexivity | nia].
Qed.

Lemma round_canonical (sg : bool) (P V : positive) (E : Z) :
  E <= 0 -> Zpos P = Zpos V * 2 ^ (- E) -> Zpos V < 2 ^ 53 ->
  binary_round prec emax sg P E = canonical sg V /\
  (Zpos (digits2_pos V) - 53 >= E ->
   binary_round_aux prec emax sg (Zpos P) E loc_Exact = canonical sg V).
Proof.
  intros HE HP HV. destruct (digits_53 V HV) as [D1 D53].
  pose proof (canonical_mantissa_eq V HV) as HM.
  pose proof (Zdigits2_shift V P (- E) ltac:(lia) HP) as HD.
  unfold canonical. set (D := Zpos (digits2_pos V)) in *.
  set (M := Z.to_pos (Zpos V * 2 ^ (53 - D))) in *.
  assert (Hf : fexp prec emax (Zpos (digits2_pos P) + E) = D - 53).
  { rewrite HD. replace (D + - E + E) with D by lia. apply fexp_normal. lia. }
  assert (Haux : D - 53 >= E ->
            binary_round_aux prec emax sg (Zpos P) E loc_Exact = S754_finite sg M (D - 53)).
  { intros Hge. replace (D - 53) with (E + (D - 53 - E)) by lia.
    apply round_aux_exact; try lia.
    - rewrite HM, HP, <- Z.mul_assoc, <- pow2_split by lia. f_equal. f_equal. lia.
    - unfold emax, prec. lia. }
  split; [|exact Haux].
  unfold binary_round, shl_align. rewrite Hf.
  destruct (D - 53 - E) as [|d|d] eqn:Ed.
  - apply Haux. lia.
  - apply Haux. lia.
  - assert (HQ : Zpos (Pos.iter xO P d) = Zpos M).
    { rewrite iter_xO, HM, HP, <- Z.mul_assoc, <- pow2_split by lia. f_equal. f_equal. lia. }
    injection HQ as ->.
    replace (D - 53) with (D - 53 + 0) at 2 by lia.
    apply round_aux_exact; try lia.
    + assert (HDM : Zpos (digits2_pos M) = 53)
        by (rewrite (Zdigits2_shift V M (53 - D)); [fold D; lia | lia | exact HM]).
      rewrite fexp_normal; lia.
    + unfold emax, prec. lia.
Qed.

Lemma of_Z_pos (V : positive) : Zpos V < 2 ^ 53 -> of_Z (Zpos V) = canonical false V.
Proof.
  intros HV. unfold of_Z. cbn [binary_normalize].
  apply (round_canonical false V V 0); [lia | | assumption].
  rewrite Z.pow_0_r. lia.
Qed.

Lemma of_Z_neg (V : positive) : Zpos V < 2 ^ 53 -> of_Z (Zneg V) = canonical true V.
Proof.
  intros HV. unfold of_Z. cbn [binary_normalize].
  apply (round_canonical true V V 0); [lia | | assumption].
  rewrite Z.pow_0_r. lia.
Qed.

(** Rounding an integer below 2^53 that is given with a scaled mantissa. *)
Lemma normalize_integer (S v E : Z) :
  E <= 0 -> S = v * 2 ^ (- E) -> Z.abs v < 2 ^ 53 ->
  binary_normalize prec emax S E false = of_Z v.
Proof.
  intros HE HS Hv.
  assert (Hp : 0 < 2 ^ (- E)) by (apply Z.pow_pos_nonneg; lia).
  destruct v as [|V|V].
  - subst S. reflexivity.
  - destruct S as [|P|P]; try nia. cbn [binary_normalize].
    rewrite of_Z_pos by lia. now apply round_canonical.
  - destruct S as [|P|P]; try nia. cbn [binary_normalize].
    rewrite of_Z_neg by lia. apply round_canonical; [assumption| |lia].
    lia.
Qed.

Lemma of_Z_0 : of_Z 0 = S754_zero false.
Proof. reflexivity. Qed.

(** The representation of a non-zero integer below 2^53. *)
Lemma of_Z_finite (v : Z) :
  v <> 0 -> Z.abs v < 2 ^ 53 ->
  exists m e, of_Z v = S754_finite (v <? 0) m e /\ e <= 0 /\
    Zpos m = Z.abs v * 2 ^ (- e).
Proof.
  intros Hv Hb. destruct v as [|V|V]; [congruence| |].
  - rewrite of_Z_pos by exact Hb. unfold canonical. eexists _, _.
    split; [reflexivity|]. destruct (digits_53 V Hb).
    split; [lia|]. rewrite canonical_mantissa_eq by exact Hb.
    cbn [Z.abs]. f_equal. f_equal. lia.
  - rewrite of_Z_neg by exact Hb. unfold canonical. eexists _, _.
    split; [reflexivity|]. destruct (digits_53 V Hb).
    split; [lia|]. rewrite canonical_mantissa_eq by exact Hb.
    cbn [Z.abs]. f_equal. f_equal. lia.
Qed.

Lemma cond_Zopp_abs (v x : Z) : 0 <= x -> cond_Zopp (v <? 0) (Z.abs v * x) = v * x.
Proof.
  intros Hx. destruct (Z.ltb_spec v 0); cbn [cond_Zopp]; nia.
Qed.

Lemma aligned (m : positive) (e ez v : Z) :
  ez <= e -> e <= 0 -> Zpos m = Z.abs v * 2 ^ (- e) ->
  cond_Zopp (v <? 0) (Zpos (fst (shl_align m e ez))) = v * 2 ^ (- ez).
Proof.
  intros H1 H2 Hm. rewrite shl_align_spec by assumption.
  rewrite Hm, <- Z.mul_assoc, <- pow2_split by lia.
  replace (- e + (e - ez)) with (- ez) by lia.
  apply cond_Zopp_abs. apply Z.pow_nonneg. lia.
Qed.

(** Sums and differences of integers are exact as long as the result is
    below 2^53 in magnitude. *)
Lemma add_exact (a b : Z) :
  Z.abs a < 2 ^ 53 -> Z.abs b < 2 ^ 53 -> Z.abs (a + b) < 2 ^ 53 ->
  add (of_Z a) (of_Z b) = of_Z (a + b).
Proof.
  intros Ha Hb Hab.
  destruct (Z.eq_dec a 0) as [->|Na].
  { rewrite of_Z_0, Z.add_0_l. destruct (Z.eq_dec b 0) as [->|Nb]; [reflexivity|].
    destruct (of_Z_finite b Nb Hb) as (m & e & -> & _). reflexivity. }
  destruct (Z.eq_dec b 0) as [->|Nb].
  { rewrite of_Z_0, Z.add_0_r.
    destruct (of_Z_finite a Na Ha) as (m & e & -> & _). reflexivity. }
  destruct (of_Z_finite a Na Ha) as (ma & ea & -> & Hea & Hma).
  destruct (of_Z_finite b Nb Hb) as (mb & eb & -> & Heb & Hmb).
  unfold add, SFadd.
  rewrite (aligned ma ea _ a), (aligned mb eb _ b) by (assumption || lia).
  apply normalize_integer; [lia | lia | assumption].
Qed.

Lemma sub_exact (a b : Z) :
  Z.abs a < 2 ^ 53 -> Z.abs b < 2 ^ 53 -> Z.abs (a - b) < 2 ^ 53 ->
  sub (of_Z a) (of_Z b) = of_Z (a - b).
Proof.
  intros Ha Hb Hab.
  destruct (Z.eq_dec b 0) as [->|Nb].
  { rewrite of_Z_0, Z.sub_0_r. destruct (Z.eq_dec a 0) as [->|Na]; [reflexivity|].
    destruct (of_Z_finite a Na Ha) as (m & e & -> & _). reflexivity. }
  destruct (Z.eq_dec a 0) as [->|Na].
  { rewrite of_Z_0, Z.sub_0_l.
    destruct b as [|V|V]; [congruence| |].
    - rewrite of_Z_pos by exact Hb.
      change (- Z.pos V) with (Z.neg V). rewrite of_Z_neg by exact Hb. reflexivity.
    - rewrite of_Z_neg by exact Hb.
      change (- Z.neg V) with (Z.pos V). rewrite of_Z_pos by exact Hb. reflexivity. }
  destruct (of_Z_finite a Na Ha) as (ma & ea & -> & Hea & Hma).
  destruct (of_Z_finite b Nb Hb) as (mb & eb & -> & Heb & Hmb).
  unfold sub, SFsub.
  rewrite (aligned ma ea _ a), (aligned mb eb _ b) by (assumption || lia).
  apply normalize_integer; [lia | lia | assumption].
Qed.

Lemma digits2_pos_ge (p : positive) (k : Z) :
  2 ^ (k - 1) <= Zpos p -> k <= Zpos (digits2_pos p).
Proof.
  intros H. destruct (digits2_pos_bounds p) as [_ Hhi].
  destruct (Z_le_gt_dec k (Zpos (digits2_pos p))) as [|Hgt]; [assumption|].
  assert (2 ^ Zpos (digits2_pos p) <= 2 ^ (k - 1)) by (apply Z.pow_le_mono_r; lia).
  lia.
Qed.

(** The square of an integer is exact as long as it is below 2^53. *)
Lemma square_exact (a : Z) :
  a * a < 2 ^ 53 -> mul (of_Z a) (of_Z a) = of_Z (a * a).
Proof.
  intros Hsq.
  assert (H53 : 1 < 2 ^ 53) by (apply Z.pow_gt_1; lia).
  assert (Ha : Z.abs a < 2 ^ 53) by nia.
  destruct (Z.eq_dec a 0) as [->|Na]; [reflexivity|].
  assert (E : exists V : positive,
            Z.abs a = Zpos V /\ of_Z a = canonical (a <? 0) V /\ a * a = Zpos (V * V)).
  { destruct a as [|V|V]; [congruence| |]; exists V.
    - split; [reflexivity|]. split; [now apply of_Z_pos | reflexivity].
    - split; [reflexivity|]. split; [now apply of_Z_neg | reflexivity]. }
  destruct E as (V & HV & -> & ->). rewrite HV in Ha.
  assert (HVV : Zpos (V * V) < 2 ^ 53) by (rewrite Pos2Z.inj_mul; nia).
  rewrite (of_Z_pos (V * V) HVV).
  unfold mul, SFmul, canonical. rewrite xorb_nilpotent.
  destruct (digits_53 V Ha) as [D1 D53].
  destruct (digits2_pos_bounds V) as [Dlo _].
  pose proof (canonical_mantissa_eq V Ha) as HM.
  set (D := Zpos (digits2_pos V)) in *.
  set (M := Z.to_pos (Zpos V * 2 ^ (53 - D))) in *.
  apply (round_canonical false (M * M) (V * V) (D - 53 + (D - 53))); [lia| |exact HVV|].
  - rewrite !Pos2Z.inj_mul, HM.
    replace (- (D - 53 + (D - 53))) with ((53 - D) + (53 - D)) by lia.
    rewrite pow2_split by lia. ring.
  - assert (2 * D - 1 <= Zpos (digits2_pos (V * V))); [|lia].
    apply digits2_pos_ge. rewrite Pos2Z.inj_mul.
    replace (2 * D - 1 - 1) with ((D - 1) + (D - 1)) by lia.
    rewrite pow2_split by lia.
    assert (0 < 2 ^ (D - 1)) by (apply Z.pow_pos_nonneg; lia). nia.
Qed.

(** The order of the Numbers of two integers below 2^53 is the order of the
    integers. *)
Lemma lt_of_Z (a b : Z) :
  0 <= a < 2 ^ 53 -> 0 < b < 2 ^ 53 -> lt (of_Z a) (of_Z b) = (a <? b).
Proof.
  intros Ha Hb.
  destruct b as [|B|B]; try lia. rewrite (of_Z_pos B) by lia.
  destruct a as [|A|A]; try lia.
  { rewrite of_Z_0. symmetry. apply Z.ltb_lt. lia. }
  rewrite (of_Z_pos A) by lia.
  assert (HA : Zpos A < 2 ^ 53) by lia. assert (HB : Zpos B < 2 ^ 53) by lia.
  pose proof (canonical_mantissa_eq A HA) as HMA.
  pose proof (canonical_mantissa_eq B HB) as HMB.
  destruct (digits_53 A HA) as [A1 A53]. destruct (digits_53 B HB) as [B1 B53].
  destruct (digits2_pos_bounds A) as [Alo Ahi].
  destruct (digits2_pos_bounds B) as [Blo Bhi].
  unfold canonical, lt, SFltb, SFcompare.
  set (DA := Zpos (digits2_pos A)) in *. set (DB := Zpos (digits2_pos B)) in *.
  set (MA := Z.to_pos (Zpos A * 2 ^ (53 - DA))) in *.
  set (MB := Z.to_pos (Zpos B * 2 ^ (53 - DB))) in *.
  destruct (Z.compare_spec (DA - 53) (DB - 53)) as [E|E|E].
  - assert (EQ : DA = DB) by lia. rewrite EQ in *.
    assert (Hp : 0 < 2 ^ (53 - DB)) by (apply Z.pow_pos_nonneg; lia).
    change (Pos.compare_cont Eq MA MB) with (Pos.compare MA MB).
    rewrite Pos2Z.inj_compare, HMA, HMB.
    destruct (Z.ltb_spec (Zpos A) (Zpos B)) as [L|L].
    + replace (_ ?= _) with Lt; [reflexivity|]. symmetry. apply Z.compare_lt_iff.
      apply Z.mul_lt_mono_pos_r; assumption.
    + destruct (_ ?= _) eqn:C; try reflexivity.
      apply Z.compare_lt_iff, Z.mul_lt_mono_pos_r in C; [lia | assumption].
  - symmetry. apply Z.ltb_lt.
    assert (2 ^ DA <= 2 ^ (DB - 1)) by (apply Z.pow_le_mono_r; lia). lia.
  - symmetry. apply Z.ltb_ge.
    assert (2 ^ DB <= 2 ^ (DA - 1)) by (apply Z.pow_le_mono_r; lia). lia.
Qed.

Lemma pow2_25 : 2 ^ 25 = 33554432.
Proof. reflexivity. Qed.

Lemma square_below (d : Z) : Z.abs d < 2 ^ 26 -> 0 <= d * d < 2 ^ 52.
Proof.
  intros H. replace (2 ^ 52) with (2 ^ 26 * 2 ^ 26) by (rewrite <- pow2_split by lia; reflexivity).
  nia.
Qed.

(** On integer coordinates of magnitude below 2^25 the handler computes the
    squared Euclidean distance exactly. *)
Lemma dist2_exact (coin : Coin) (p : Player) (kx ky px py : Z) :
  c_x coin = of_Z kx -> c_y coin = of_Z ky -> p_x p = of_Z px -> p_y p = of_Z py ->
  Z.abs kx < 2 ^ 25 -> Z.abs ky < 2 ^ 25 -> Z.abs px < 2 ^ 25 -> Z.abs py < 2 ^ 25 ->
  dist2 coin p = of_Z ((kx - px) * (kx - px) + (ky - py) * (ky - py)) /\
  lt (dist2 coin p) (of_Z 400)
    = ((kx - px) * (kx - px) + (ky - py) * (ky - py) <? 400).
Proof.
  intros Ecx Ecy Epx Epy Hkx Hky Hpx Hpy.
  assert (H25 : 2 ^ 26 = 2 * 2 ^ 25) by reflexivity.
  assert (H53 : 2 ^ 53 = 2 * 2 ^ 52) by reflexivity.
  assert (H52 : 2 ^ 26 < 2 ^ 52) by (apply Z.pow_lt_mono_r; lia).
  assert (Hdx : Z.abs (kx - px) < 2 ^ 26) by lia.
  assert (Hdy : Z.abs (ky - py) < 2 ^ 26) by lia.
  pose proof (square_below _ Hdx) as Hx2. pose proof (square_below _ Hdy) as Hy2.
  assert (E : dist2 coin p = of_Z ((kx - px) * (kx - px) + (ky - py) * (ky - py))).
  { unfold dist2. rewrite Ecx, Ecy, Epx, Epy.
    rewrite !sub_exact by lia. rewrite !square_exact by lia.
    apply add_exact; lia. }
  split; [exact E|]. rewrite E. apply lt_of_Z; [lia|].
  rewrite H53. replace (2 ^ 52) with (2 ^ 26 * 2 ^ 26) by (rewrite <- pow2_split by lia; reflexivity). rewrite H25, pow2_25. lia.
Qed.

Lemma counter_max_Z : Z.of_N counter_max = 2 ^ 53.
Proof. vm_compute. reflexivity. Qed.

Lemma counter_last_step : add (of_Z (2 ^ 53 - 1)) (of_Z 1) = of_Z (2 ^ 53).
Proof. vm_compute. reflexivity. Qed.

Lemma counter_stall : add (of_Z (2 ^ 53)) (of_Z 1) = of_Z (2 ^ 53).
Proof. vm_compute. reflexivity. Qed.

(** [increment] is the binary64 sum [n + 1] on every value the counter
    takes. *)
Lemma increment_binary64 (n : N) :
  (n <= counter_max)%N ->
  add (of_Z (Z.of_N n)) (of_Z 1) = of_Z (Z.of_N (increment n)).
Proof.
  intros Hn. apply N2Z.inj_le in Hn. rewrite counter_max_Z in Hn.
  unfold increment. destruct (N.ltb_spec n counter_max) as [L|L].
  - apply N2Z.inj_lt in L. rewrite counter_max_Z in L. rewrite N2Z.inj_succ.
    assert (H1 : 1 < 2 ^ 53) by (apply Z.pow_gt_1; lia).
    destruct (Z.eq_dec (Z.of_N n) (2 ^ 53 - 1)) as [E|N].
    + rewrite E. replace (Z.succ (2 ^ 53 - 1)) with (2 ^ 53) by lia.
      apply counter_last_step.
    + unfold Z.succ. apply add_exact; lia.
  - apply N2Z.inj_le in L. rewrite counter_max_Z in L.
    replace (Z.of_N n) with (2 ^ 53) by lia. apply counter_stall.
Qed.

(** *** The real number a Number stands for *)

Lemma scaled_back (v k : Z) :
  0 <= k -> (inject_Z (v * 2 ^ k) * 2 ^ (- k) == inject_Z v)%Q.
Proof.
  intros Hk. rewrite inject_Z_mult, Zpower_Qpower by assumption.
  rewrite Qpower_opp.
  change (inject_Z 2) with 2%Q.
  rewrite <- Qmult_assoc, Qmult_inv_r, Qmult_1_r; [reflexivity|].
  apply Qpower_not_0. discriminate.
Qed.

(** The Number of an integer below 2^53 stands for that integer. *)
Lemma exact_of_Z (v : Z) :
  Z.abs v < 2 ^ 53 -> exists q, exact (of_Z v) = Some q /\ (q == inject_Z v)%Q.
Proof.
  intros Hv. destruct (Z.eq_dec v 0) as [->|Nv].
  { exists 0%Q. split; reflexivity. }
  destruct (of_Z_finite v Nv Hv) as (m & e & -> & He & Hm).
  eexists. split; [reflexivity|].
  rewrite Hm, cond_Zopp_abs by (apply Z.pow_nonneg; lia).
  replace e with (- - e) at 2 by lia. apply scaled_back. lia.
Qed.

Lemma sqdist_integers (coin : Coin) (p : Player) (kx ky px py : Z) :
  c_x coin = of_Z kx -> c_y coin = of_Z ky -> p_x p = of_Z px -> p_y p = of_Z py ->
  Z.abs kx < 2 ^ 53 -> Z.abs ky < 2 ^ 53 -> Z.abs px < 2 ^ 53 -> Z.abs py < 2 ^ 53 ->
  exists d2, sqdist coin p = Some d2 /\
    (d2 == inject_Z ((kx - px) * (kx - px) + (ky - py) * (ky - py)))%Q.
Proof.
  intros Ecx Ecy Epx' Epy' Hkx Hky Hpx Hpy. unfold sqdist.
  rewrite Ecx, Ecy, Epx', Epy'.
  destruct (exact_of_Z kx Hkx) as (qkx & -> & Ekx).
  destruct (exact_of_Z ky Hky) as (qky & -> & Eky).
  destruct (exact_of_Z px Hpx) as (qpx & -> & Epx).
  destruct (exact_of_Z py Hpy) as (qpy & -> & Epy).
  eexists. split; [reflexivity|].
  rewrite Ekx, Eky, Epx, Epy.
  rewrite inject_Z_plus, !inject_Z_mult. unfold Z.sub.
  rewrite !inject_Z_plus, !inject_Z_opp. reflexivity.
Qed.

End NumFacts.

Export NumFacts.

(** ** Seeding of the coins *)

Module Seeding.

Lemma same_eq (a b : number) : same a b = true -> a = b.
Proof.
  destruct a as [s|s| |s m e], b as [t|t| |t n f]; cbn [same]; try discriminate;
    try reflexivity.
  - intros H. apply Bool.eqb_prop in H. congruence.
  - intros H. apply Bool.eqb_prop in H. congruence.
  - intros H. apply andb_true_iff in H as [H He]. apply andb_true_iff in H as [Hs Hm].
    apply Bool.eqb_prop in Hs. apply Pos.eqb_eq in Hm. apply Z.eqb_eq in He. congruence.
Qed.

Lemma range_all_spec (lo : Z) (n : nat) (f : Z -> bool) (k : Z) :
  range_all lo n f = true -> lo <= k < lo + Z.of_nat n -> f k = true.
Proof.
  unfold range_all. rewrite forallb_forall. intros H Hk.
  replace k with (lo + Z.of_nat (Z.to_nat (k - lo))) by lia.
  apply H, in_seq. lia.
Qed.

Lemma add_80_exact (k : Z) :
  0 <= k < 1440 -> add (of_Z 80) (of_Z k) = of_Z (80 + k).
Proof.
  intros Hk. apply same_eq.
  apply (range_all_spec 0 1440 (fun k => same (add (of_Z 80) (of_Z k)) (of_Z (80 + k)))).
  - vm_compute. reflexivity.
  - lia.
Qed.

Lemma inside_world_x (k : Z) :
  80 <= k <= 1519 -> lt (of_Z 0) (of_Z k) = true /\ lt (of_Z k) WORLD_W = true.
Proof.
  intros Hk. apply andb_true_iff.
  apply (range_all_spec 80 1440 (fun k => lt (of_Z 0) (of_Z k) && lt (of_Z k) WORLD_W)).
  - vm_compute. reflexivity.
  - lia.
Qed.

Lemma inside_world_y (k : Z) :
  80 <= k <= 739 -> lt (of_Z 0) (of_Z k) = true /\ lt (of_Z k) WORLD_H = true.
Proof.
  intros Hk. apply andb_true_iff.
  apply (range_all_spec 80 660 (fun k => lt (of_Z 0) (of_Z k) && lt (of_Z k) WORLD_H)).
  - vm_compute. reflexivity.
  - lia.
Qed.

Lemma width_span : sub WORLD_W (of_Z 160) = of_Z 1440.
Proof. vm_compute. reflexivity. Qed.

Lemma height_span : sub WORLD_H (of_Z 240) = of_Z 660.
Proof. vm_compute. reflexivity. Qed.

Lemma floor_random_1440 (r : number) :
  unit_interval r -> exists k, 0 <= k < 1440 /\ Math_floor (mul r (of_Z 1440)) = of_Z k.
Proof.
  intros Hr.
  apply (floor_mul_random r 1440 6333186975989760 (-42)); try assumption.
  - vm_compute. reflexivity.
  - rewrite pow2_52, pow2_53. lia.
  - lia.
  - vm_compute. reflexivity.
Qed.

Lemma floor_random_660 (r : number) :
  unit_interval r -> exists k, 0 <= k < 660 /\ Math_floor (mul r (of_Z 660)) = of_Z k.
Proof.
  intros Hr.
  apply (floor_mul_random r 660 5805421394657280 (-43)); try assumption.
  - vm_compute. reflexivity.
  - rewrite pow2_52, pow2_53. lia.
  - lia.
  - vm_compute. reflexivity.
Qed.

Lemma spawn_one_spec (rnd : nat -> number) (i : nat) :
  unit_interval (rnd (2 * i)%nat) -> unit_interval (rnd (2 * i + 1)%nat) ->
  exists kx ky, 80 <= kx <= 1519 /\ 80 <= ky <= 739 /\
    spawn_one rnd i = mkCoin ("c" ++ decimal (N.of_nat i)) (of_Z kx) (of_Z ky) false.
Proof.
  intros Hx Hy.
  destruct (floor_random_1440 _ Hx) as (kx & Hkx & Ex).
  destruct (floor_random_660 _ Hy) as (ky & Hky & Ey).
  exists (80 + kx), (80 + ky). split; [lia|]. split; [lia|].
  unfold spawn_one. rewrite width_span, height_span, Ex, Ey.
  rewrite !add_80_exact by lia. reflexivity.
Qed.

Lemma spawn_loop_map (rnd : nat -> number) (n i : nat) (acc : list Coin) :
  spawn_loop rnd i n acc = (acc ++ map (spawn_one rnd) (seq i n))%list.
Proof.
  revert i acc. induction n as [|n IH]; intros i acc; cbn [spawn_loop seq map].
  - now rewrite app_nil_r.
  - rewrite IH, <- app_assoc. reflexivity.
Qed.

Lemma spawnCoins_map (rnd : nat -> number) :
  spawnCoins rnd = map (spawn_one rnd) (seq 0 20).
Proof. unfold spawnCoins. now rewrite spawn_loop_map. Qed.

Lemma decimal_inj (n m : N) : decimal n = decimal m -> n = m.
Proof.
  unfold decimal. intros H.
  assert (Hu : Some (N.to_uint n) = Some (N.to_uint m))
    by (rewrite <- !NilEmpty.usu; now rewrite H).
  injection Hu as Hu.
  rewrite <- (DecimalN.Unsigned.of_to n), <- (DecimalN.Unsigned.of_to m).
  now rewrite Hu.
Qed.

Lemma spawnCoins_ids (rnd : nat -> number) : map c_id (spawnCoins rnd) = seeded_ids.
Proof. rewrite spawnCoins_map. reflexivity. Qed.

Lemma seeded_ids_NoDup : List.NoDup seeded_ids.
Proof.
  unfold seeded_ids.
  repeat (apply List.NoDup_cons; [cbn [In]; intros H; repeat destruct H as [H|H]; discriminate H || exact H|]).
  apply List.NoDup_nil.
Qed.

(** What seeding yields, whatever [Math.random] returns within its range. *)
Lemma spawnCoins_spec (rnd : nat -> number) :
  (forall n, unit_interval (rnd n)) ->
  length (spawnCoins rnd) = 20%nat /\
  map c_id (spawnCoins rnd) = seeded_ids /\
  List.NoDup (map c_id (spawnCoins rnd)) /\
  List.Forall seeded (spawnCoins rnd).
Proof.
  intros Hrnd. split; [|split; [|split]].
  - rewrite spawnCoins_map. reflexivity.
  - apply spawnCoins_ids.
  - rewrite spawnCoins_ids. apply seeded_ids_NoDup.
  - rewrite spawnCoins_map. apply List.Forall_forall. intros c Hc.
    apply in_map_iff in Hc as (i & <- & _).
    destruct (spawn_one_spec rnd i (Hrnd _) (Hrnd _)) as (kx & ky & Hkx & Hky & ->).
    split; [reflexivity|]. exists kx, ky. cbn [c_x c_y].
    destruct (inside_world_x kx Hkx), (inside_world_y ky Hky). tauto.
Qed.

End Seeding.

Export Seeding.

(** ** Facts about the handlers *)

Module HandlerFacts.

Lemma and_then_skip_l (h : handler) (s : Server) : (skip >>> h) s = h s.
Proof. unfold and_then, skip. destruct (h s); reflexivity. Qed.

Lemma and_then_skip_r (h : handler) (s : Server) : (h >>> skip) s = h s.
Proof. unfold and_then, skip. destruct (h s); cbn; now rewrite ?app_nil_r. Qed.

Lemma and_then_Normal (h1 h2 : handler) (s s1 : Server) (o1 : list Output) :
  h1 s = Normal s1 o1 ->
  (h1 >>> h2) s =
    match h2 s1 with
    | Normal s2 o2 => Normal s2 (o1 ++ o2)
    | Throws s2 o2 => Throws s2 (o1 ++ o2)
    end.
Proof. unfold and_then. now intros ->. Qed.

Lemma typed_truthy (msg : value) (t : string) :
  get msg "type" = VStr t -> truthy msg = true.
Proof. destruct msg; cbn; try discriminate; reflexivity. Qed.

(** Evaluates the string tests of the dispatcher on a literal type. *)
Ltac dispatch H :=
  unfold on_message; rewrite (typed_truthy _ _ H), H;
  repeat match goal with
    | |- context [is_str (VStr ?a) ?b] =>
        let v := eval vm_compute in (is_str (VStr a) b) in
        change (is_str (VStr a) b) with v
    | |- context [truthy (VStr ?a)] =>
        let v := eval vm_compute in (truthy (VStr a)) in
        change (truthy (VStr a)) with v
    end;
  cbn [negb orb when];
  rewrite ?and_then_skip_l, ?and_then_skip_r.

(** The five branches exclude one another: a message of a known type runs
    exactly its own branch. *)
Lemma on_message_join (k : nat) (msg : value) (now : number) (s : Server) :
  get msg "type" = VStr "join" -> on_message k (Some msg) now s = join k msg now s.
Proof.
  intros H. dispatch H. reflexivity.
Qed.

Lemma on_message_update (k : nat) (msg : value) (now : number) (s : Server) :
  get msg "type" = VStr "update" -> on_message k (Some msg) now s = update k msg s.
Proof.
  intros H. dispatch H. reflexivity.
Qed.

Lemma on_message_collect (k : nat) (msg : value) (now : number) (s : Server) :
  get msg "type" = VStr "collect" -> on_message k (Some msg) now s = collect k msg now s.
Proof.
  intros H. dispatch H. reflexivity.
Qed.

Lemma on_message_signal (k : nat) (msg : value) (now : number) (s : Server) :
  get msg "type" = VStr "signal" -> on_message k (Some msg) now s = signal k msg s.
Proof.
  intros H. dispatch H. reflexivity.
Qed.

Lemma on_message_chat (k : nat) (msg : value) (now : number) (s : Server) :
  get msg "type" = VStr "chat" -> on_message k (Some msg) now s = chat msg now s.
Proof.
  intros H. dispatch H. reflexivity.
Qed.

(** A dropped frame changes nothing and sends nothing. *)
Lemma dropped_noop (k : nat) (raw : option value) (now : number) (s : Server) :
  dropped raw -> on_message k raw now s = Normal s [].
Proof.
  destruct raw as [msg|]; cbn [dropped on_message]; [|reflexivity].
  intros [H|[H|H]].
  - rewrite H. reflexivity.
  - rewrite H, orb_true_r. reflexivity.
  - destruct (negb (truthy msg) || negb (truthy (get msg "type"))); [reflexivity|].
    rewrite !H by (cbn; tauto). reflexivity.
Qed.

Lemma put_conns_id (s : Server) : put_conns (conns s) s = s.
Proof. now destruct s. Qed.

Lemma lift_id (f : Player -> Player) (l : list Conn) (k : nat) :
  (forall p, f p = p) -> alter (lift f) k l = l.
Proof. intros H. apply list_alter_id. intros [p st]. unfold lift. cbn. now rewrite H. Qed.

Lemma modify_then (f : Server -> Server) (h : handler) (s : Server) :
  (modify f >>> h) s = h (f s).
Proof. unfold and_then, modify. now destruct (h (f s)). Qed.

Lemma set_player_then (k : nat) (f : Player -> Player) (h : handler) (s : Server) :
  (set_player k f >>> h) s = h (put_conns (alter (lift f) k (conns s)) s).
Proof. unfold set_player. rewrite modify_then. reflexivity. Qed.

Lemma when_number_then (v : value) (k : nat) (f : number -> Player -> Player)
    (h : handler) (s : Server) :
  (when_number v (fun n => set_player k (f n)) >>> h) s =
  h (put_conns
       (alter (lift (fun p => match as_number v with Some n => f n p | None => p end))
              k (conns s)) s).
Proof.
  unfold when_number. destruct (as_number v).
  - apply set_player_then.
  - rewrite and_then_skip_l, lift_id, put_conns_id; reflexivity.
Qed.

Lemma put_conns_twice (l l' : list Conn) (s : Server) :
  put_conns l (put_conns l' s) = put_conns l s.
Proof. reflexivity. Qed.

Lemma update_spec (k : nat) (msg : value) (s : Server) :
  update k msg s = Normal (put_conns (alter (lift (updated msg)) k (conns s)) s) [].
Proof.
  unfold update. rewrite !when_number_then.
  rewrite <- (and_then_skip_r (when_number _ _)), when_number_then.
  unfold skip. cbn [conns put_conns nextId players coins]. f_equal. unfold put_conns. f_equal.
  rewrite !list_alter_alter_eq. apply list_alter_ext; [|reflexivity].
  intros [p st] _. unfold lift, updated, compose. cbn.
  destruct (as_number (get msg "x")), (as_number (get msg "y")),
    (as_number (get msg "bubbleRadius")); destruct p; reflexivity.
Qed.

Lemma from_JSON_assoc (fields : list (string * value)) (key : string) (v : number) :
  from_JSON (VObj fields) = true -> assoc key fields = VNum v -> is_nan v = false.
Proof.
  induction fields as [|[k' x] rest IH]; cbn [assoc]; [discriminate|].
  intros HJ Hget. cbn in HJ. apply andb_true_iff in HJ as [Hx Hrest].
  destruct (String.eqb k' key).
  - subst x. cbn in Hx. apply andb_true_iff in Hx as [Hx _]. now apply negb_true_iff in Hx.
  - apply IH; assumption.
Qed.

Lemma from_JSON_number (msg : value) (key : string) (v : number) :
  from_JSON msg = true -> as_number (get msg key) = Some v -> is_nan v = false.
Proof.
  intros HJ Hv. destruct (get msg key) eqn:Hg; try discriminate. injection Hv as ->.
  destruct msg; try discriminate. cbn [get] in Hg. eapply from_JSON_assoc; eassumption.
Qed.

Lemma updated_in_bounds (msg : value) (p : Player) :
  from_JSON msg = true -> in_bounds p -> in_bounds (updated msg p).
Proof.
  intros HJ (Hx & Hy & Hr). unfold in_bounds, updated. cbn [p_x p_y p_bubbleRadius].
  split; [|split].
  - destruct (as_number (get msg "x")) eqn:E; [|assumption].
    apply clamp_bounds; [vm_compute; reflexivity | eapply from_JSON_number; eassumption].
  - destruct (as_number (get msg "y")) eqn:E; [|assumption].
    apply clamp_bounds; [vm_compute; reflexivity | eapply from_JSON_number; eassumption].
  - destruct (as_number (get msg "bubbleRadius")) eqn:E; [|assumption].
    apply clamp_bounds; [vm_compute; reflexivity | eapply from_JSON_number; eassumption].
Qed.

Lemma update_event_step (k : nat) (e : Event) (s : Server) (c : Conn) :
  update_event k e -> conns s !! k = Some c -> in_bounds (player c) ->
  exists s' c', step e s = Normal s' [] /\ conns s' !! k = Some c' /\
    in_bounds (player c').
Proof.
  intros (msg & now & -> & HJ & Ht) Hc Hb. cbn [step].
  rewrite (on_message_update _ _ _ _ Ht), update_spec.
  eexists _, _. split; [reflexivity|]. cbn [conns put_conns].
  rewrite list_lookup_alter_eq, Hc. split; [reflexivity|].
  now apply updated_in_bounds.
Qed.

Lemma join_spec (k : nat) (msg : value) (now : number) (s : Server) :
  join k msg now s =
  Normal (put_conns (alter (lift (joined msg)) k (conns s)) s)
         (broadcastState now (put_conns (alter (lift (joined msg)) k (conns s)) s)).
Proof.
  unfold join. rewrite set_player_then, !when_number_then.
  cbn [conns put_conns]. rewrite !put_conns_twice.
  rewrite !list_alter_alter_eq.
  replace (alter _ k (conns s)) with (alter (lift (joined msg)) k (conns s)); [reflexivity|].
  apply list_alter_ext; [|reflexivity].
  intros [p st] _. unfold lift, joined, compose, set_name. cbn.
  destruct (as_number (get msg "x")), (as_number (get msg "y")); reflexivity.
Qed.



Lemma slice0_short (n : nat) (s : string) :
  (String.length s <= n)%nat -> slice0 n s = s.
Proof.
  unfold slice0. revert s. induction n as [|n IH]; intros [|a s]; cbn; auto; try lia.
  intros H. f_equal. apply IH. lia.
Qed.

Lemma twenty_squared : mul (of_Z 20) (of_Z 20) = of_Z 400.
Proof. vm_compute. reflexivity. Qed.

Lemma emit_eq (f : Server -> list Output) (s : Server) : emit f s = Normal s (f s).
Proof. reflexivity. Qed.

(** The [collect] branch by cases. *)
Lemma collect_spec (k : nat) (msg : value) (now : number) (s : Server) :
  collect k msg now s =
  match find_coin (get msg "coinId") (coins s), conns s !! k with
  | Some (i, coin), Some c =>
      if negb (c_taken coin) && lt (dist2 coin (player c)) (of_Z 400)
      then Normal (put_coins (alter mark_taken i (coins s)) s)
                  (broadcastState now (put_coins (alter mark_taken i (coins s)) s))
      else Normal s []
  | _, _ => Normal s []
  end.
Proof.
  unfold collect. destruct (find_coin _ _) as [[i coin]|]; [|reflexivity].
  unfold when, with_player.
  destruct (c_taken coin); cbn [negb andb]; [destruct (conns s !! k); reflexivity|].
  destruct (conns s !! k) as [c|]; [|reflexivity].
  rewrite twenty_squared. destruct (lt _ _); [|reflexivity].
  unfold set_taken. rewrite modify_then. reflexivity.
Qed.

Lemma find_coin_Some (v : value) (l : list Coin) (i : nat) (c : Coin) :
  find_coin v l = Some (i, c) -> l !! i = Some c /\ is_str v (c_id c) = true.
Proof.
  revert i. induction l as [|a l IH]; intros i; cbn [find_coin]; [discriminate|].
  destruct (is_str v (c_id a)) eqn:E.
  - intros [= <- <-]. auto.
  - destruct (find_coin v l) as [[j c']|]; [|discriminate].
    intros [= <- <-]. apply IH. reflexivity.
Qed.

Lemma find_coin_mark (v : value) (l : list Coin) (i j : nat) (c : Coin) :
  find_coin v l = Some (i, c) ->
  find_coin v (alter mark_taken j l) =
    Some (i, if Nat.eqb i j then mark_taken c else c).
Proof.
  revert i j. induction l as [|a l IH]; intros i j; cbn [find_coin]; [discriminate|].
  destruct j as [|j]; cbn [alter list_alter find_coin mark_taken c_id].
  - destruct (is_str v (c_id a)); [intros [= <- <-]; reflexivity|].
    destruct (find_coin v l) as [[i' c']|]; [|discriminate]. intros [= <- <-]. reflexivity.
  - destruct (is_str v (c_id a)); [intros [= <- <-]; reflexivity|].
    destruct (find_coin v l) as [[i' c']|] eqn:E; [|discriminate]. intros [= <- <-].
    rewrite (IH i' j eq_refl). reflexivity.
Qed.

Lemma mark_taken_taken (c : Coin) : c_taken c = true -> mark_taken c = c.
Proof. destruct c. cbn. now intros ->. Qed.

Lemma alter_insert {A : Type} (f : A -> A) (l : list A) (i : nat) (x : A) :
  l !! i = Some x -> alter f i l = <[i := f x]> l.
Proof.
  intros H. rewrite list_insert_alter. apply list_alter_ext; [|reflexivity].
  intros y Hy. congruence.
Qed.

Lemma signal_spec (k : nat) (msg : value) (s : Server) :
  signal k msg s =
  match Map_get (get msg "to") (players s) with
  | Some r =>
      match conns s !! r, conns s !! k with
      | Some target, Some me =>
          if is_open (readyState target)
          then if stringify_returns (engine s)
                    (signal_frame (p_id (player me)) (get msg "data"))
               then Normal s [(r, signal_frame (p_id (player me)) (get msg "data"))]
               else Throws s []
          else Normal s []
      | _, _ => Normal s []
      end
  | None => Normal s []
  end.
Proof.
  unfold signal. destruct (Map_get _ _) as [r|]; [|reflexivity].
  destruct (conns s !! r) as [target|] eqn:Er; [|reflexivity].
  unfold when, with_player. destruct (is_open (readyState target)) eqn:Eo;
    [|destruct (conns s !! k); reflexivity].
  destruct (conns s !! k) as [me|]; [|reflexivity].
  unfold send. rewrite Er, Eo. reflexivity.
Qed.

(** The [chat] branch by cases. *)
Lemma chat_spec (msg : value) (now : number) (s : Server) :
  chat msg now s =
  if String_returns (engine s) (or_else (get msg "text") (VStr ""))
  then Normal s (broadcastState now s) else Throws s [].
Proof.
  unfold chat. destruct (String_returns _ _); cbn [negb when].
  - rewrite and_then_skip_l. reflexivity.
  - reflexivity.
Qed.

(** When the two conversions of client data fail. *)
Lemma String_returns_false (eng : Engine) (v : value) :
  String_returns eng v = false <->
  convertible v = false \/ (join_room eng < array_depth v)%nat.
Proof.
  unfold String_returns. rewrite andb_false_iff, Nat.leb_gt. reflexivity.
Qed.

Lemma signal_frame_serialises (eng : Engine) (from : string) (data : value) :
  stringify_returns eng (signal_frame from data)
    = (depth data <? 3 + stringify_room eng)%nat.
Proof.
  unfold stringify_returns, signal_frame. cbn [depth].
  rewrite !Nat.max_0_l, Nat.max_0_r. reflexivity.
Qed.

(** The conversions on small values: [String] looks through arrays but not
    through objects, and [JSON.stringify] descends through both. *)
Lemma conversion_examples :
  convertible (VArr [VNull; VArr [VObj [("toString", VNull)]]]) = false /\
  convertible (VObj [("valueOf", VNull); ("a", VObj [("toString", VNull)])]) = true /\
  array_depth (VArr [VObj [("a", VArr [VArr []])]; VArr [VNull]]) = 2%nat /\
  depth (VArr [VObj [("a", VArr [VArr []])]; VArr [VNull]]) = 4%nat /\
  depth (VObj [("a", VNum (of_Z 1)); ("b", VObj [("c", VArr [])])]) = 3%nat /\
  String_returns (mkEngine 0 1) (VArr [VStr "a"; VArr []]) = false /\
  String_returns (mkEngine 0 2) (VArr [VStr "a"; VArr []]) = true /\
  stringify_returns (mkEngine 0 0) (VObj [("a", VArr [VObj []])]) = true /\
  stringify_returns (mkEngine 0 0) (VObj [("a", VArr [VObj [("b", VArr [])]])]) = false.
Proof. repeat split; reflexivity. Qed.

(** Every frame is dropped or runs exactly one branch. *)
Lemma on_message_cases (k : nat) (raw : option value) (now : number) (s : Server) :
  on_message k raw now s = Normal s [] \/
  exists msg, raw = Some msg /\
    (on_message k raw now s = join k msg now s \/
     on_message k raw now s = update k msg s \/
     on_message k raw now s = collect k msg now s \/
     on_message k raw now s = signal k msg s \/
     on_message k raw now s = chat msg now s).
Proof.
  destruct raw as [msg|]; [|left; reflexivity].
  destruct (get msg "type") as [| | | |t| |] eqn:Ht;
    try (left; apply dropped_noop; right; right; intros t' _; rewrite Ht; reflexivity).
  destruct (String.eqb_spec t "join") as [->|N1];
    [right; exists msg; split; [reflexivity|]; left; now apply on_message_join|].
  destruct (String.eqb_spec t "update") as [->|N2];
    [right; exists msg; split; [reflexivity|]; right; left; now apply on_message_update|].
  destruct (String.eqb_spec t "collect") as [->|N3];
    [right; exists msg; split; [reflexivity|]; do 2 right; left; now apply on_message_collect|].
  destruct (String.eqb_spec t "signal") as [->|N4];
    [right; exists msg; split; [reflexivity|]; do 3 right; left; now apply on_message_signal|].
  destruct (String.eqb_spec t "chat") as [->|N5];
    [right; exists msg; split; [reflexivity|]; do 4 right; now apply on_message_chat|].
  left. apply dropped_noop. right; right. intros t' Hin. rewrite Ht. cbn [is_str].
  apply String.eqb_neq. cbn in Hin. intuition congruence.
Qed.

Lemma on_close_spec (k : nat) (now : number) (s : Server) :
  on_close k now s =
  match conns s !! k with
  | Some c =>
      Normal (put_players (Map_delete (p_id (player c)) (players s)) s)
             (broadcastState now (put_players (Map_delete (p_id (player c)) (players s)) s))
  | None => Normal s []
  end.
Proof.
  unfold on_close, with_player. destruct (conns s !! k); [|reflexivity].
  rewrite modify_then. reflexivity.
Qed.

Lemma world_centre : div WORLD_W (of_Z 2) = of_Z 800 /\ div WORLD_H (of_Z 2) = of_Z 450.
Proof. split; vm_compute; reflexivity. Qed.

Lemma ground_level : GROUND_Y = of_Z 780.
Proof. vm_compute. reflexivity. Qed.

(** The frames the server builds itself nest three levels at most, which
    every engine serialises. *)
Lemma coin_views_depth (l : list Coin) : (depth (VArr (map coin_view l)) <= 2)%nat.
Proof. induction l as [|c l IH]; cbn in *; lia. Qed.

Lemma welcome_depth (id : string) (s : Server) : (depth (welcome id s) <= 3)%nat.
Proof.
  pose proof (coin_views_depth (coins s)) as H. unfold welcome.
  cbn in *. lia.
Qed.

Lemma player_views_depth (l : list (nat * Conn)) :
  (depth (VArr (map (fun rc => player_view (player (snd rc))) l)) <= 2)%nat.
Proof. induction l as [|c l IH]; cbn in *; lia. Qed.

Lemma state_payload_depth (now : number) (s : Server) :
  (depth (state_payload now s) <= 3)%nat.
Proof.
  pose proof (coin_views_depth (coins s)) as H.
  pose proof (player_views_depth (values s)) as H'. unfold state_payload.
  cbn in *. lia.
Qed.

Lemma server_frames_serialise (eng : Engine) (v : value) :
  (depth v <= 3)%nat -> stringify_returns eng v = true.
Proof. intros H. unfold stringify_returns. apply Nat.leb_le. lia. Qed.

Lemma on_connection_spec (now : number) (s : Server) :
  on_connection now s =
  Normal (connected s)
    ((length (conns s), welcome (fresh_id s) (connected s))
       :: broadcastState now (connected s)).
Proof.
  unfold on_connection. destruct world_centre as [-> ->].
  fold (fresh_id s). fold (fresh_player s). fold (connected s).
  unfold and_then, send, emit.
  replace (conns (connected s) !! length (conns s))
    with (Some (mkConn (fresh_player s) OPEN)).
  - cbn [readyState is_open].
    rewrite server_frames_serialise by apply welcome_depth. reflexivity.
  - symmetry. cbn [connected conns]. apply list_lookup_middle. reflexivity.
Qed.

Lemma on_message_effect (k : nat) (raw : option value) (now : number) (s : Server) :
  effect s (final (on_message k raw now s)).
Proof.
  destruct (on_message_cases k raw now s) as [-> | (msg & -> & [-> | [-> | [-> | [-> | ->]]]])].
  - constructor.
  - rewrite join_spec. cbn [final]. constructor. reflexivity.
  - rewrite update_spec. cbn [final]. constructor. reflexivity.
  - rewrite collect_spec.
    destruct (find_coin _ _) as [[i coin]|] eqn:Ef; [|constructor].
    destruct (conns s !! k); [|constructor].
    destruct (c_taken coin) eqn:Et; cbn [negb andb]; [constructor|].
    destruct (lt _ _); [|constructor].
    cbn [final]. apply effect_coin with coin; [|assumption].
    now apply find_coin_Some in Ef.
  - rewrite signal_spec.
    destruct (Map_get _ _); [|constructor].
    destruct (conns s !! _), (conns s !! k); try constructor.
    destruct (is_open _); [|constructor].
    destruct (stringify_returns _ _); constructor.
  - rewrite chat_spec. destruct (String_returns _ _); constructor.
Qed.

Lemma step_effect (e : Event) (s : Server) : effect s (final (step e s)).
Proof.
  destruct e as [now|k raw now|k now|now|k st]; cbn [step].
  - rewrite on_connection_spec. constructor.
  - apply on_message_effect.
  - rewrite on_close_spec. destruct (conns s !! k); constructor.
  - constructor.
  - apply (effect_player s k (fun c => mkConn (player c) st)). reflexivity.
Qed.

End HandlerFacts.

Export HandlerFacts.

(** ** Facts about the Map of players *)

Module Registry.

Lemma Map_set_In (k : string) (r : nat) (m : list (string * nat)) (x : string * nat) :
  In x (Map_set k r m) -> In x m \/ x = (k, r).
Proof.
  induction m as [|[k' r'] m IH]; cbn [Map_set In].
  - intros [<-|[]]. now right.
  - destruct (String.eqb_spec k' k) as [->|N]; cbn [In].
    + intros [<-|H]; auto.
    + intros [<-|H]; auto. destruct (IH H); auto.
Qed.

Lemma Map_set_keys (k : string) (r : nat) (m : list (string * nat)) :
  map fst (Map_set k r m) = map fst m /\ In k (map fst m) \/
  map fst (Map_set k r m) = (map fst m ++ [k])%list /\ ~ In k (map fst m).
Proof.
  induction m as [|[k' r'] m IH]; cbn [Map_set map fst In app].
  - right. split; [reflexivity | tauto].
  - destruct (String.eqb_spec k' k) as [->|N]; cbn [map fst].
    + left. split; [reflexivity | now left].
    + destruct IH as [[-> H]|[-> H]]; [left | right]; split; try reflexivity; tauto.
Qed.

Lemma Map_get_set (k : string) (r : nat) (m : list (string * nat)) :
  Map_get (VStr k) (Map_set k r m) = Some r.
Proof.
  induction m as [|[k' r'] m IH]; cbn [Map_set Map_get is_str].
  - now rewrite String.eqb_refl.
  - destruct (String.eqb_spec k' k) as [->|N]; cbn [Map_get is_str].
    + now rewrite String.eqb_refl.
    + rewrite (proj2 (String.eqb_neq k k')) by congruence. exact IH.
Qed.

Lemma Map_get_In (key : value) (m : list (string * nat)) (r : nat) :
  Map_get key m = Some r -> exists k, key = VStr k /\ In (k, r) m.
Proof.
  induction m as [|[k' r'] m IH]; cbn [Map_get In]; [discriminate|].
  destruct (is_str key k') eqn:E.
  - intros [= <-]. exists k'. split; [|now left].
    destruct key; try discriminate. cbn in E. apply String.eqb_eq in E. now subst.
  - intros H. destruct (IH H) as (k & -> & Hin). eauto.
Qed.

Lemma Map_delete_In (k : string) (m : list (string * nat)) (x : string * nat) :
  In x (Map_delete k m) -> In x m.
Proof.
  induction m as [|[k' r'] m IH]; cbn [Map_delete In]; [tauto|].
  destruct (String.eqb k' k); cbn [In]; tauto.
Qed.

Lemma Map_delete_keys_In (k k' : string) (m : list (string * nat)) :
  In k' (map fst (Map_delete k m)) -> In k' (map fst m).
Proof.
  intros H. apply in_map_iff in H as (x & <- & Hx). apply in_map, (Map_delete_In k), Hx.
Qed.

Lemma Map_delete_NoDup (k : string) (m : list (string * nat)) :
  List.NoDup (map fst m) -> List.NoDup (map fst (Map_delete k m)).
Proof.
  induction m as [|[k' r'] m IH]; cbn [Map_delete map fst]; [auto|].
  intros H. apply List.NoDup_cons_iff in H as [Hk Hm].
  destruct (String.eqb k' k); [assumption|]. cbn [map fst].
  apply List.NoDup_cons; [|auto]. intros Hin. apply Hk. eapply Map_delete_keys_In, Hin.
Qed.

Lemma Map_get_delete (k : string) (m : list (string * nat)) :
  List.NoDup (map fst m) -> Map_get (VStr k) (Map_delete k m) = None.
Proof.
  induction m as [|[k' r'] m IH]; cbn [Map_delete map fst]; [reflexivity|].
  intros H. apply List.NoDup_cons_iff in H as [Hk Hm].
  destruct (String.eqb_spec k' k) as [->|N].
  - destruct (Map_get (VStr k) m) as [r|] eqn:E; [|reflexivity].
    apply Map_get_In in E as (k2 & [= <-] & Hin). exfalso. apply Hk.
    apply in_map_iff. exists (k, r). auto.
  - cbn [Map_get is_str]. rewrite (proj2 (String.eqb_neq k k')) by congruence. auto.
Qed.

Lemma Map_get_delete_other (k k' : string) (m : list (string * nat)) :
  k <> k' -> Map_get (VStr k') (Map_delete k m) = Map_get (VStr k') m.
Proof.
  intros N. induction m as [|[k2 r2] m IH]; cbn [Map_delete]; [reflexivity|].
  destruct (String.eqb_spec k2 k) as [->|N2]; cbn [Map_get is_str].
  - now rewrite (proj2 (String.eqb_neq k' k)) by congruence.
  - now rewrite IH.
Qed.

Lemma Map_get_set_other (k k' : string) (r : nat) (m : list (string * nat)) :
  k <> k' -> Map_get (VStr k') (Map_set k r m) = Map_get (VStr k') m.
Proof.
  intros N. induction m as [|[k2 r2] m IH]; cbn [Map_set Map_get is_str].
  - now rewrite (proj2 (String.eqb_neq k' k)) by congruence.
  - destruct (String.eqb_spec k2 k) as [->|N2]; cbn [Map_get is_str].
    + now rewrite (proj2 (String.eqb_neq k' k)) by congruence.
    + now rewrite IH.
Qed.

End Registry.

Export Registry.

(** ** Invariants of the reachable states *)

Module Invariants.

Lemma map_alter_same {A B : Type} (f : A -> B) (g : A -> A) (i : nat) (l : list A) :
  (forall x, f (g x) = f x) -> map f (alter g i l) = map f l.
Proof.
  intros H. revert i. induction l as [|a l IH]; intros [|i]; cbn; try reflexivity.
  - now rewrite H.
  - f_equal. apply IH.
Qed.

Lemma Forall_alter {A : Type} (P : A -> Prop) (g : A -> A) (i : nat) (l : list A) :
  (forall x, P x -> P (g x)) -> List.Forall P l -> List.Forall P (alter g i l).
Proof.
  intros H Hl. revert i. induction Hl as [|a l Ha Hl IH]; intros [|i]; cbn;
    constructor; auto.
Qed.

Lemma consistent_init (eng : Engine) (rnd : nat -> number) :
  (forall n, unit_interval (rnd n)) -> consistent (init eng rnd).
Proof.
  intros Hrnd. destruct (spawnCoins_spec rnd Hrnd) as (_ & Hids & _ & Hall).
  split; cbn [init coins conns players nextId ids map length seq].
  - assumption.
  - eapply List.Forall_impl; [|exact Hall].
    intros c (_ & kx & ky & ? & ? & ? & ? & _). exists kx, ky. auto.
  - vm_compute. reflexivity.
  - reflexivity.
  - intros id r [].
  - constructor.
Qed.

(** The counter after one more connection. *)
Lemma increment_counter_after (n : nat) :
  increment (counter_after n) = counter_after (S n).
Proof.
  unfold increment, counter_after.
  destruct (N.ltb_spec (N.min (N.of_nat (S n)) counter_max) counter_max); lia.
Qed.

Lemma counter_after_below (n : nat) :
  (N.of_nat n < counter_max)%N -> counter_after n = N.of_nat (S n).
Proof. unfold counter_after. lia. Qed.

Lemma counter_after_full (n : nat) :
  (counter_max <= N.of_nat (S n))%N -> counter_after n = counter_max.
Proof. unfold counter_after. lia. Qed.

Lemma counter_after_inj (i n : nat) :
  (N.of_nat n < counter_max)%N -> (i <= n)%nat ->
  counter_after i = counter_after n -> i = n.
Proof. unfold counter_after. lia. Qed.

Lemma nth_id_inj (i n : nat) :
  (N.of_nat n < counter_max)%N -> (i <= n)%nat -> nth_id i = nth_id n -> i = n.
Proof.
  intros Hn Hi E. unfold nth_id in E. cbn in E. injection E as E.
  apply decimal_inj in E. now apply counter_after_inj.
Qed.

Lemma fresh_id_nth (s : Server) :
  consistent s -> fresh_id s = nth_id (length (conns s)).
Proof. intros Hs. unfold fresh_id, nth_id. now rewrite (counter_value s Hs). Qed.

(** As long as fewer than 2^53 connections have been accepted, the id of
    the next connection is carried by no player object created so far. *)
Lemma fresh_id_unused (s : Server) :
  consistent s -> (N.of_nat (length (conns s)) < counter_max)%N ->
  ~ In (fresh_id s) (ids s).
Proof.
  intros Hs Hb Hin. rewrite (fresh_id_nth s Hs), (ids_in_order s Hs) in Hin.
  apply in_map_iff in Hin as (i & E & Hi). apply in_seq in Hi.
  apply (nth_id_inj _ _ Hb) in E; lia.
Qed.

(** The counter is below 2^53 as long as fewer than 2^53 - 1 connections
    have been accepted. *)
Lemma counter_below (s : Server) :
  consistent s ->
  ((nextId s < counter_max)%N <-> (N.of_nat (S (length (conns s))) < counter_max)%N).
Proof. intros Hs. rewrite (counter_value s Hs). unfold counter_after. lia. Qed.

Lemma consistent_effect (s s' : Server) :
  consistent s -> effect s s' -> consistent s'.
Proof.
  intros Hs. pose proof (fresh_id_nth s Hs) as Hf. revert Hf.
  destruct Hs as [Hc Hp Hn Hi Hr Hk]. intros Hf [|k g Hg|i coin Hi' Ht|id|].
  - split; assumption.
  - assert (E : ids (put_conns (alter g k (conns s)) s) = ids s)
      by (unfold ids; cbn [conns put_conns]; now apply map_alter_same).
    split; cbn [put_conns coins players nextId conns]; rewrite ?length_alter;
      try assumption.
    + now rewrite E.
    + intros id r Hin. destruct (Hr id r Hin) as (c & Hc' & Hid). cbn [conns put_conns].
      destruct (decide (k = r)) as [->|N].
      * exists (g c). rewrite list_lookup_alter_eq, Hc'. split; [reflexivity|]. now rewrite Hg.
      * exists c. rewrite list_lookup_alter_ne by assumption. auto.
  - split; cbn [put_coins coins players nextId conns]; try assumption.
    + rewrite <- Hc. now apply map_alter_same.
    + apply Forall_alter; [|assumption]. intros c H. exact H.
  - split; cbn [put_players coins players nextId conns]; try assumption.
    + intros id' r Hin. apply Hr. eapply Map_delete_In, Hin.
    + now apply Map_delete_NoDup.
  - assert (E : ids (connected s) = (ids s ++ [fresh_id s])%list)
      by (unfold ids; cbn [connected conns]; now rewrite map_app).
    assert (L : length (conns (connected s)) = S (length (conns s)))
      by (cbn [connected conns]; rewrite length_app; cbn; lia).
    split; rewrite ?L; cbn [connected coins players nextId]; try assumption.
    + rewrite Hn. apply increment_counter_after.
    + rewrite E, seq_S, map_app, Hi, Hf. reflexivity.
    + intros id r Hin. apply Map_set_In in Hin as [Hin|[= -> ->]]; cbn [conns].
      * destruct (Hr id r Hin) as (c & Hc' & Hid). exists c.
        split; [|assumption]. now apply lookup_app_l_Some.
      * exists (mkConn (fresh_player s) OPEN). split; [|reflexivity].
        apply list_lookup_middle. reflexivity.
    + destruct (Map_set_keys (fresh_id s) (length (conns s)) (players s))
        as [[-> _]|[-> Hnew]]; [assumption|].
      apply List.NoDup_app; repeat split; auto.
      * apply List.NoDup_cons; [tauto | constructor].
      * intros x Hx [<-|[]]. tauto.
Qed.

Lemma consistent_reachable (s : Server) : reachable s -> consistent s.
Proof.
  induction 1 as [eng rnd Hrnd|e s s' out _ IH Hstep].
  - now apply consistent_init.
  - apply (consistent_effect s); [assumption|].
    pose proof (step_effect e s) as H. now rewrite Hstep in H.
Qed.

Lemma Map_set_has (k : string) (r : nat) (m : list (string * nat)) :
  In (k, r) (Map_set k r m).
Proof.
  induction m as [|[k' r'] m IH]; cbn [Map_set]; [now left|].
  destruct (String.eqb_spec k' k) as [->|N]; [now left | now right].
Qed.

Lemma broadcast_frames (now : number) (s : Server) (o : Output) :
  In o (broadcastState now s) ->
  snd o = state_payload now s /\
  exists id c, In (id, fst o) (players s) /\ conns s !! fst o = Some c /\
    readyState c = OPEN.
Proof.
  unfold broadcastState, values. intros H.
  apply list_elem_of_In, list_elem_of_omap in H as ([r c] & Hin & Hf).
  apply list_elem_of_omap in Hin as ([id r'] & Hin & Hg). cbn [fst snd] in *.
  destruct (conns s !! r') as [c'|] eqn:E; [|discriminate]. cbn in Hg.
  injection Hg as <- <-.
  destruct (readyState c') eqn:Eo; try discriminate. cbn in Hf. injection Hf as <-.
  cbn [fst snd]. split; [reflexivity|]. exists id, c'. apply list_elem_of_In in Hin. auto.
Qed.

Lemma broadcast_reaches (now : number) (s : Server) (id : string) (r : nat) (c : Conn) :
  In (id, r) (players s) -> conns s !! r = Some c -> readyState c = OPEN ->
  In (r, state_payload now s) (broadcastState now s).
Proof.
  intros Hin Hc Ho. unfold broadcastState, values.
  apply list_elem_of_In, list_elem_of_omap. exists (r, c). split.
  - apply list_elem_of_omap. exists (id, r). split; [now apply list_elem_of_In|].
    cbn [snd]. now rewrite Hc.
  - cbn [fst snd]. now rewrite Ho.
Qed.

(** The outcomes of a [collect] message. *)
Lemma collect_outcome (k : nat) (msg : value) (now : number) (s : Server) :
  get msg "type" = VStr "collect" ->
  (find_coin (get msg "coinId") (coins s) = None ->
   on_message k (Some msg) now s = Normal s []) /\
  (forall i coin, find_coin (get msg "coinId") (coins s) = Some (i, coin) ->
     c_taken coin = true -> on_message k (Some msg) now s = Normal s []) /\
  (forall i coin c, find_coin (get msg "coinId") (coins s) = Some (i, coin) ->
     conns s !! k = Some c -> lt (dist2 coin (player c)) (of_Z 400) = false ->
     on_message k (Some msg) now s = Normal s []) /\
  (on_message k (Some msg) now s = Normal s [] \/
   exists i coin c,
     find_coin (get msg "coinId") (coins s) = Some (i, coin) /\
     c_taken coin = false /\ conns s !! k = Some c /\
     lt (dist2 coin (player c)) (of_Z 400) = true /\
     on_message k (Some msg) now s =
       Normal (put_coins (<[i := mark_taken coin]> (coins s)) s)
         (broadcastState now (put_coins (<[i := mark_taken coin]> (coins s)) s))).
Proof.
  intros Ht. rewrite (on_message_collect _ _ _ _ Ht), collect_spec.
  split; [now intros ->|]. split; [|split].
  - intros i coin -> ->. destruct (conns s !! k); reflexivity.
  - intros i coin c -> -> ->. now rewrite andb_false_r.
  - destruct (find_coin _ _) as [[i coin]|] eqn:Ef; [|now left].
    destruct (conns s !! k) as [c|]; [|now left].
    destruct (c_taken coin) eqn:Eu; [now left|].
    destruct (lt _ _) eqn:El; [|now left]. cbn [negb andb].
    right. exists i, coin, c. repeat split; try assumption.
    destruct (find_coin_Some _ _ _ _ Ef) as [Hi _].
    now rewrite (alter_insert _ _ _ _ Hi).
Qed.

Lemma effect_keeps_taken (s s' : Server) (i : nat) (c : Coin) :
  effect s s' -> coins s !! i = Some c -> c_taken c = true -> coins s' !! i = Some c.
Proof.
  intros [|k g _|j coin Hj Hu|id|] Hi Ht; try exact Hi.
  cbn [put_coins coins]. destruct (decide (j = i)) as [->|N].
  - congruence.
  - now rewrite list_lookup_alter_ne.
Qed.

Lemma mark_untaken_changes (l : list Coin) (i : nat) (coin : Coin) :
  l !! i = Some coin -> c_taken coin = false -> alter mark_taken i l <> l.
Proof.
  intros Hi Hu E. apply (f_equal (fun l => l !! i)) in E.
  rewrite list_lookup_alter_eq, Hi in E. cbn in E. injection E as E.
  rewrite <- E in Hu. discriminate.
Qed.

Lemma collect_noop_any_time (k : nat) (msg : value) (now now' : number) (s : Server) :
  collect k msg now s = Normal s [] -> collect k msg now' s = Normal s [].
Proof.
  rewrite !collect_spec.
  destruct (find_coin _ _) as [[i coin]|] eqn:Ef; [|reflexivity].
  destruct (conns s !! k) as [c|]; [|reflexivity].
  destruct (c_taken coin) eqn:Eu; [reflexivity|].
  destruct (lt _ _); [|reflexivity]. cbn [negb andb].
  intros [= E _]. exfalso.
  destruct (find_coin_Some _ _ _ _ Ef) as [Hi _].
  apply (mark_untaken_changes _ _ _ Hi Eu).
  apply (f_equal coins) in E. exact E.
Qed.

(** *** States of the sample run, and states with many connections *)

Lemma start_reachable : reachable start.
Proof. apply reachable_init. intros n. left. reflexivity. Defined.

Lemma one_client_reachable : reachable one_client.
Proof.
  apply (reachable_step (Connection t0) start one_client
           (sent (on_connection t0 start))).
  - exact start_reachable.
  - reflexivity.
Defined.

Lemma two_clients_reachable : reachable two_clients.
Proof.
  apply (reachable_step (Connection t0) one_client two_clients
           (sent (on_connection t0 one_client))).
  - exact one_client_reachable.
  - reflexivity.
Defined.

Lemma at_coin_reachable : reachable at_coin.
Proof.
  apply (reachable_step
           (Message 0 (Some (message "join" [("x", VNum (of_Z 80)); ("y", VNum (of_Z 80))])) t0)
           one_client at_coin (broadcastState t0 at_coin)).
  - exact one_client_reachable.
  - vm_compute. reflexivity.
Defined.

(** Any number of connections can be accepted. *)
Lemma connections_reach (n : nat) : exists s, reachable s /\ length (conns s) = n.
Proof.
  induction n as [|n (s & Hs & Hl)].
  - exists start. split; [exact start_reachable | reflexivity].
  - exists (connected s). split.
    + eapply (reachable_step (Connection t0) s); [exact Hs|]. apply on_connection_spec.
    + cbn [connected conns]. rewrite length_app, Hl. cbn. lia.
Qed.

Lemma counter_max_pos : (1 <= counter_max)%N.
Proof. apply N.leb_le. vm_compute. reflexivity. Qed.

(** Once 2^53 connections have been accepted the counter stands at 2^53
    and the id of the next connection is already in use. *)
Lemma stalled_counter (s : Server) :
  consistent s -> (counter_max <= N.of_nat (length (conns s)))%N ->
  nextId s = counter_max /\ In (fresh_id s) (ids s).
Proof.
  intros Hs Hfull. pose proof counter_max_pos as Hpos.
  split; [rewrite (counter_value s Hs); unfold counter_after; lia|].
  rewrite (fresh_id_nth s Hs), (ids_in_order s Hs).
  destruct (length (conns s)) as [|n] eqn:El; [lia|].
  apply in_map_iff. exists n. split; [|apply in_seq; lia].
  unfold nth_id, counter_after. f_equal. f_equal. lia.
Qed.

End Invariants.

Export Invariants.

(** ** The specification, claim by claim *)

Module Claims.

(** C1, amended.  For every player whose position and radius are within
    bounds when the sequence starts, as they are at creation, and every
    sequence of [update] messages processed for that player, each as
    [JSON.parse] delivers it (its numbers are finite or infinite; JSON has
    no NaN): after each message the position satisfies 0 <= x <= 1600 and
    0 <= y <= 900 and the radius satisfies 30 <= bubbleRadius <= 400, and
    the messages send nothing. *)
Theorem updates_keep_bounds (k : nat) (es : list Event) (s : Server) (c : Conn) :
  Forall (update_event k) es ->
  conns s !! k = Some c -> in_bounds (player c) ->
  forall n : nat,
    exists s' c', run (take n es) s = Normal s' [] /\
      conns s' !! k = Some c' /\ in_bounds (player c').
Proof.
  intros Hes Hc Hb n. revert s c Hc Hb n.
  induction Hes as [|e es He Hes IH]; intros s c Hc Hb n.
  - rewrite take_nil. cbn [run]. exists s, c. auto.
  - destruct n as [|n]; cbn [take run]; [exists s, c; auto|].
    destruct (update_event_step k e s c He Hc Hb) as (sa & ca & Hsa & Hca & Hba).
    destruct (IH sa ca Hca Hba n) as (sb & cb & Hsb & Hcb & Hbb).
    exists sb, cb. rewrite (and_then_Normal _ _ _ _ _ Hsa), Hsb. auto.
Qed.

(** The first client sends x = 5000 with bubbleRadius = 9999, then
    y = -Infinity. *)
Lemma updates_keep_bounds_witness :
  Forall (update_event 0) sample_updates /\
  conns one_client !! 0%nat = Some (mkConn (fresh_player start) OPEN) /\
  in_bounds (fresh_player start) /\
  exists s' c', run (take 2 sample_updates) one_client = Normal s' [] /\
    conns s' !! 0%nat = Some c' /\ in_bounds (player c').
Proof.
  assert (H1 : Forall (update_event 0) sample_updates).
  { unfold sample_updates.
    repeat constructor; eexists _, _; repeat split; vm_compute; reflexivity. }
  assert (H2 : conns one_client !! 0%nat = Some (mkConn (fresh_player start) OPEN))
    by (vm_compute; reflexivity).
  assert (H3 : in_bounds (fresh_player start))
    by (repeat split; vm_compute; reflexivity).
  split; [exact H1 | split; [exact H2 | split; [exact H3 |]]].
  exact (updates_keep_bounds 0 sample_updates one_client _ H1 H2 H3 2).
Defined.

(** C1 as stated fails for a player who joined outside the world.  The
    first client sends join {x: 5000} and then update {y: 20}, two frames
    that [JSON.parse] delivers: after the [update] message the stored x is
    still 5000, which is above 1600. *)
Lemma update_after_join_leaves_bounds :
  reachable one_client /\
  from_JSON join_outside = true /\
  step (Message 0 (Some join_outside) t0) one_client
    = Normal outside (broadcastState t0 outside) /\
  update_event 0 (Message 0 (Some update_y) t0) /\
  exists s' c',
    run [Message 0 (Some update_y) t0] outside = Normal s' [] /\
    conns s' !! 0%nat = Some c' /\
    p_x (player c') = of_Z 5000 /\ le (p_x (player c')) WORLD_W = false /\
    ~ in_bounds (player c').
Proof.
  split; [exact one_client_reachable|].
  split; [vm_compute; reflexivity|].
  split; [vm_compute; reflexivity|].
  split; [exists update_y, t0; repeat split; vm_compute; reflexivity|].
  eexists _, _. split; [vm_compute; reflexivity|].
  split; [vm_compute; reflexivity|]. split; [vm_compute; reflexivity|].
  split; [vm_compute; reflexivity|].
  intros [[_ H] _]. vm_compute in H. discriminate H.
Qed.




(** C3.  The taken flag is monotonic: a coin whose flag is true is left as
    it is by every event; a [collect] naming a taken coin changes nothing
    and sends nothing, whoever sends it; and the same [collect] message a
    second time, from the same player or after a first one that succeeded,
    is a no-op. *)
Theorem taken_flag_is_monotonic :
  (forall (e : Event) (s : Server) (i : nat) (c : Coin),
     coins s !! i = Some c -> c_taken c = true ->
     coins (final (step e s)) !! i = Some c) /\
  (forall (k : nat) (msg : value) (now : number) (s : Server) (i : nat) (c : Coin),
     get msg "type" = VStr "collect" ->
     find_coin (get msg "coinId") (coins s) = Some (i, c) -> c_taken c = true ->
     on_message k (Some msg) now s = Normal s []) /\
  (forall (k k' : nat) (msg : value) (now now' : number) (s : Server),
     get msg "type" = VStr "collect" ->
     let s1 := final (on_message k (Some msg) now s) in
     (k' = k \/ s1 <> s) ->
     on_message k' (Some msg) now' s1 = Normal s1 []).
Proof.
  split; [|split].
  - intros e s i c Hi Ht. eapply effect_keeps_taken; eauto using step_effect.
  - intros k msg now s i c Hm Hf Ht.
    now apply (proj1 (proj2 (collect_outcome k msg now s Hm)) i c).
  - intros k k' msg now now' s Hm s1 Hk. subst s1.
    destruct (proj2 (proj2 (proj2 (collect_outcome k msg now s Hm))))
      as [E|(i & coin & c & Hf & Hu & Hc & Hl & E)].
    + rewrite E in *. cbn [final] in *. destruct Hk as [->|N]; [|congruence].
      rewrite (on_message_collect k msg now s Hm) in E.
      rewrite (on_message_collect _ _ _ _ Hm). now apply collect_noop_any_time with now.
    + rewrite E. cbn [final].
      apply (proj1 (proj2 (collect_outcome k' msg now' _ Hm)) i (mark_taken coin));
        [|reflexivity].
      cbn [put_coins coins]. destruct (find_coin_Some _ _ _ _ Hf) as [Hi _].
      rewrite <- (alter_insert mark_taken _ _ _ Hi), (find_coin_mark _ _ _ i _ Hf).
      now rewrite Nat.eqb_refl.
Qed.

(** Coin c0 has been collected; the same [collect] arrives once more. *)
Lemma taken_flag_is_monotonic_witness :
  coins coin_collected !! 0%nat = Some (mkCoin "c0" (of_Z 80) (of_Z 80) true) /\
  coins (final (step (Message 0 (Some (message "collect" [("coinId", VStr "c0")])) t0)
                  coin_collected)) !! 0%nat
    = Some (mkCoin "c0" (of_Z 80) (of_Z 80) true).
Proof.
  assert (H : coins coin_collected !! 0%nat = Some (mkCoin "c0" (of_Z 80) (of_Z 80) true))
    by (vm_compute; reflexivity).
  split; [assumption|].
  exact (proj1 taken_flag_is_monotonic _ coin_collected 0%nat _ H eq_refl).
Defined.

(** C4.  A [collect] message whose coinId names no coin, or names a coin
    already taken, or whose proximity check fails, changes no field of the
    world state and sends nothing; a [collect] either does that or it
    succeeds, and only then the state is broadcast. *)
Theorem failed_collect_is_noop (k : nat) (msg : value) (now : number) (s : Server) :
  get msg "type" = VStr "collect" ->
  (find_coin (get msg "coinId") (coins s) = None ->
   on_message k (Some msg) now s = Normal s []) /\
  (forall i coin, find_coin (get msg "coinId") (coins s) = Some (i, coin) ->
     c_taken coin = true -> on_message k (Some msg) now s = Normal s []) /\
  (forall i coin c, find_coin (get msg "coinId") (coins s) = Some (i, coin) ->
     conns s !! k = Some c -> lt (dist2 coin (player c)) (of_Z 400) = false ->
     on_message k (Some msg) now s = Normal s []) /\
  (on_message k (Some msg) now s = Normal s [] \/
   exists i coin c,
     find_coin (get msg "coinId") (coins s) = Some (i, coin) /\
     c_taken coin = false /\ conns s !! k = Some c /\
     lt (dist2 coin (player c)) (of_Z 400) = true /\
     on_message k (Some msg) now s =
       Normal (put_coins (<[i := mark_taken coin]> (coins s)) s)
         (broadcastState now (put_coins (<[i := mark_taken coin]> (coins s)) s))).
Proof. exact (collect_outcome k msg now s). Qed.

(** A client asks for a coin that does not exist. *)
Lemma failed_collect_is_noop_witness :
  get (message "collect" [("coinId", VStr "c99")]) "type" = VStr "collect" /\
  find_coin (get (message "collect" [("coinId", VStr "c99")]) "coinId") (coins one_client)
    = None /\
  on_message 0 (Some (message "collect" [("coinId", VStr "c99")])) t0 one_client
    = Normal one_client [].
Proof.
  assert (H : find_coin (get (message "collect" [("coinId", VStr "c99")]) "coinId")
                (coins one_client) = None) by (vm_compute; reflexivity).
  split; [reflexivity | split; [exact H |]].
  exact (proj1 (failed_collect_is_noop 0 (message "collect" [("coinId", VStr "c99")])
                  t0 one_client eq_refl) H).
Defined.

(** C5.  An inbound frame that [JSON.parse] rejects, or that parses to a
    falsy value or to a value without a truthy [type], or whose [type] is
    none of join, update, collect, signal and chat, makes the handler return
    normally with the state (players, coins, registry) unchanged and nothing
    sent. *)
Theorem dropped_frame_is_noop (k : nat) (raw : option value) (now : number) (s : Server) :
  dropped raw -> on_message k raw now s = Normal s [].
Proof. apply dropped_noop. Qed.

(** A frame of an unknown type. *)
Lemma dropped_frame_is_noop_witness :
  dropped (Some (message "dance" [])) /\
  on_message 0 (Some (message "dance" [])) t0 one_client = Normal one_client [].
Proof.
  assert (H : dropped (Some (message "dance" []))).
  { right; right. intros t Ht. cbn in Ht.
    repeat (destruct Ht as [<-|Ht]; [reflexivity|]). destruct Ht. }
  split; [assumption|].
  exact (dropped_frame_is_noop 0 _ t0 one_client H).
Defined.

(** C6, at the failing input.  A [signal] message for a registered player
    whose socket is open, with [data] nested so deeply that
    [JSON.stringify] exhausts the call stack, makes the handler throw out of
    [send]: no frame reaches the target, and the exception is not caught. *)
Theorem deep_signal_throws
    (k : nat) (msg : value) (now : number) (s : Server) (r : nat) (target me : Conn) :
  get msg "type" = VStr "signal" ->
  Map_get (get msg "to") (players s) = Some r ->
  conns s !! r = Some target -> readyState target = OPEN ->
  conns s !! k = Some me ->
  (3 + stringify_room (engine s) <= depth (get msg "data"))%nat ->
  on_message k (Some msg) now s = Throws s [].
Proof.
  intros Ht Hr Htarget Hopen Hme Hdeep.
  rewrite (on_message_signal _ _ _ _ Ht), signal_spec, Hr, Htarget, Hme, Hopen.
  cbn [is_open].
  rewrite signal_frame_serialises.
  now rewrite (proj2 (Nat.ltb_ge _ _) Hdeep).
Qed.

(** The first of two clients signals the second with data nested 1003
    levels, on an engine that serialises 1003 levels. *)
Lemma deep_signal_throws_witness :
  from_JSON (deep_signal "p2" 1003) = true /\
  (3 + stringify_room (engine two_clients)
     <= depth (get (deep_signal "p2" 1003) "data"))%nat /\
  on_message 0 (Some (deep_signal "p2" 1003)) t0 two_clients = Throws two_clients [].
Proof.
  assert (H : (3 + stringify_room (engine two_clients)
                 <= depth (get (deep_signal "p2" 1003) "data"))%nat)
    by (apply Nat.leb_le; vm_compute; reflexivity).
  split; [vm_compute; reflexivity|]. split; [exact H|].
  apply (deep_signal_throws 0 (deep_signal "p2" 1003) t0 two_clients 1%nat
           (mkConn (mkPlayer "p2" "Pilotp2" (of_Z 800) (of_Z 450) (of_Z 120)) OPEN)
           (mkConn (mkPlayer "p1" "Pilotp1" (of_Z 800) (of_Z 450) (of_Z 120)) OPEN)
           eq_refl); [vm_compute; reflexivity | vm_compute; reflexivity | reflexivity
                     | vm_compute; reflexivity | exact H].
Defined.

(** C7, amended.  On every connection open, in every reachable state: the
    player gets the id 'p' followed by the counter; as long as fewer than
    2^53 connections have been accepted no player object created earlier
    carries that id, and the counter grows by one until it has reached
    2^53; the player starts at the world centre (800, 450) with
    bubbleRadius 120 on an open socket and is registered under its id; the
    frames sent are one [welcome] on the new connection, with the id, the
    world {w: 1600, h: 900, groundY: 780} and the current list of the 20
    coins, followed by a broadcast of the state, which holds no further
    [welcome] and reaches the new connection too. *)
Theorem connection_welcomes_fresh_player (s : Server) (now : number) :
  reachable s ->
  let id := "p" ++ decimal (nextId s) in
  let r := length (conns s) in
  let p := {| p_id := id; p_name := "Pilot" ++ id; p_x := of_Z 800;
              p_y := of_Z 450; p_bubbleRadius := of_Z 120 |} in
  exists s',
    on_connection now s = Normal s' ((r, welcome id s') :: broadcastState now s') /\
    ((N.of_nat (length (conns s)) < 9007199254740992)%N -> ~ In id (ids s)) /\
    ((nextId s < 9007199254740992)%N -> nextId s' = N.succ (nextId s)) /\
    ids s' = (ids s ++ [id])%list /\
    conns s' = (conns s ++ [mkConn p OPEN])%list /\
    Map_get (VStr id) (players s') = Some r /\
    welcome id s' =
      VObj [("type", VStr "welcome"); ("id", VStr id);
            ("world", VObj [("w", VNum (of_Z 1600)); ("h", VNum (of_Z 900));
                            ("groundY", VNum (of_Z 780))]);
            ("coins",
             VArr (map (fun c => VObj [("id", VStr (c_id c)); ("x", VNum (c_x c));
                                       ("y", VNum (c_y c)); ("taken", VBool (c_taken c))])
                       (coins s)))] /\
    length (coins s) = 20%nat /\
    (forall o, In o (broadcastState now s') -> get (snd o) "type" = VStr "state") /\
    In (r, state_payload now s') (broadcastState now s').
Proof.
  intros Hs id r p. apply consistent_reachable in Hs.
  exists (connected s). split; [apply on_connection_spec|].
  split.
  { fold counter_max. intros Hb. now apply fresh_id_unused. }
  split.
  { fold counter_max. intros Hb. cbn [connected nextId]. unfold increment.
    destruct (N.ltb_spec (nextId s) counter_max); [reflexivity | lia]. }
  split; [unfold ids; cbn [connected conns]; now rewrite map_app|].
  split; [reflexivity|].
  split; [apply Map_get_set|].
  split; [unfold welcome; now rewrite ground_level|].
  split; [rewrite <- (length_map c_id), (coin_ids s Hs); reflexivity|].
  split.
  - intros o Ho. apply broadcast_frames in Ho as [-> _]. reflexivity.
  - apply broadcast_reaches with (fresh_id s) (mkConn (fresh_player s) OPEN).
    + apply Map_set_has.
    + apply list_lookup_middle. reflexivity.
    + reflexivity.
Qed.

(** The first connection after start-up. *)
Lemma connection_welcomes_fresh_player_witness :
  reachable start /\
  exists s',
    on_connection t0 start
      = Normal s' ((0%nat, welcome "p1" s') :: broadcastState t0 s') /\
    ~ In "p1" (ids start) /\ nextId s' = 2%N /\
    Map_get (VStr "p1") (players s') = Some 0%nat.
Proof.
  split; [exact start_reachable|].
  destruct (connection_welcomes_fresh_player start t0 start_reachable)
    as (s' & H1 & H2 & H3 & _ & _ & H4 & _).
  exists s'. split; [exact H1|].
  split; [exact (H2 eq_refl) | split; [exact (H3 eq_refl) | exact H4]].
Defined.

(** C7 as stated fails once the counter has reached 2^53: there binary64
    addition of 1 returns its argument, so the counter stays where it is
    and the id p9007199254740992, which the connection before received, is
    assigned again.  That state is reached by 2^53 connections. *)
Lemma stalled_counter_reissues_id :
  add (of_Z 9007199254740992) (of_Z 1) = of_Z 9007199254740992 /\
  exists s,
    reachable s /\
    N.of_nat (length (conns s)) = 9007199254740992%N /\
    "p" ++ decimal (nextId s) = "p9007199254740992" /\
    In ("p" ++ decimal (nextId s)) (ids s) /\
    nextId (final (on_connection t0 s)) = nextId s.
Proof.
  split; [vm_compute; reflexivity|].
  destruct (connections_reach (N.to_nat counter_max)) as (s & Hs & Hl).
  assert (Hlen : N.of_nat (length (conns s)) = counter_max)
    by (rewrite Hl; apply N2Nat.id).
  assert (Hfull : (counter_max <= N.of_nat (length (conns s)))%N)
    by (rewrite Hlen; apply N.le_refl).
  clear Hl. exists s. split; [exact Hs|]. split; [exact Hlen|].
  destruct (stalled_counter s (consistent_reachable s Hs) Hfull) as (Hn & Hin).
  split; [rewrite Hn; vm_compute; reflexivity|].
  split; [exact Hin|].
  rewrite on_connection_spec. cbn [final connected nextId]. rewrite Hn.
  vm_compute. reflexivity.
Qed.



(** C9, at the failing input.  The frame
    {"type":"chat","text":{"toString":1}} is one [JSON.parse] delivers, and
    on it the handler throws out of [String(...)] before [broadcastState]
    is reached: in every state, from every connection, no frame is sent. *)
Theorem poisoned_chat_throws (k : nat) (now : number) (s : Server) :
  from_JSON poisoned_chat = true /\
  on_message k (Some poisoned_chat) now s = Throws s [].
Proof.
  split; [vm_compute; reflexivity|].
  rewrite on_message_chat by reflexivity. rewrite chat_spec. reflexivity.
Qed.

(** C10.  After seeding there are exactly 20 coins, with the pairwise
    distinct ids c0 to c19 in this order; every coin is untaken and sits at
    integer coordinates with 80 <= x <= 1519 and 80 <= y <= 739, strictly
    inside the world, whatever [Math.random] returns within its range. *)
Theorem spawnCoins_seeds_twenty (rnd : nat -> number) :
  (forall n, unit_interval (rnd n)) ->
  length (spawnCoins rnd) = 20%nat /\
  map c_id (spawnCoins rnd) = seeded_ids /\
  List.NoDup (map c_id (spawnCoins rnd)) /\
  List.Forall seeded (spawnCoins rnd).
Proof. apply spawnCoins_spec. Qed.

(** The seeding run in which every draw of [Math.random] is +0. *)
Lemma spawnCoins_seeds_twenty_witness :
  (forall n : nat, unit_interval (rnd0 n)) /\
  length (spawnCoins rnd0) = 20%nat /\
  map c_id (spawnCoins rnd0) = seeded_ids /\
  List.NoDup (map c_id (spawnCoins rnd0)) /\
  List.Forall seeded (spawnCoins rnd0).
Proof.
  assert (H : forall n : nat, unit_interval (rnd0 n)) by (intros n; left; reflexivity).
  split; [assumption|].
  exact (spawnCoins_seeds_twenty rnd0 H).
Defined.

End Claims.

(** ** Further properties of the server *)

Module Further.

(** *** The sample run *)

Lemma one_client_conn :
  conns one_client !! 0%nat = Some (mkConn (mkPlayer "p1" "Pilotp1" (of_Z 800) (of_Z 450) (of_Z 120)) OPEN).
Proof. vm_compute. reflexivity. Defined.

Lemma two_clients_conn :
  conns two_clients !! 0%nat = Some (mkConn (mkPlayer "p1" "Pilotp1" (of_Z 800) (of_Z 450) (of_Z 120)) OPEN).
Proof. vm_compute. reflexivity. Defined.

(** *** The order of numbers *)

Lemma compare_cont_lt (m n : positive) :
  Pos.compare_cont Eq m n = Lt <-> (m < n)%positive.
Proof. apply Pos.compare_lt_iff. Qed.

Lemma lt_finite (s1 s2 : bool) (m1 m2 : positive) (e1 e2 : Z) :
  lt (S754_finite s1 m1 e1) (S754_finite s2 m2 e2) = true <->
  match s1, s2 with
  | true, false => True
  | false, true => False
  | false, false => e1 < e2 \/ (e1 = e2 /\ (m1 < m2)%positive)
  | true, true => e2 < e1 \/ (e1 = e2 /\ (m2 < m1)%positive)
  end.
Proof.
  unfold lt, SFltb, SFcompare.
  change (Pos.compare_cont Eq m1 m2) with (Pos.compare m1 m2).
  destruct s1, s2.
  - destruct (Z.compare_spec e1 e2) as [E|E|E].
    + destruct (Pos.compare_spec m1 m2) as [F|F|F]; cbn.
      * split; [discriminate | intros [H|[_ H]]; lia].
      * split; [discriminate | intros [H|[_ H]]; lia].
      * split; [intros _; right; split; assumption | reflexivity].
    + split; [discriminate | intros [H|[H _]]; lia].
    + split; [intros _; left; assumption | reflexivity].
  - split; [tauto | reflexivity].
  - split; [discriminate | tauto].
  - destruct (Z.compare_spec e1 e2) as [E|E|E].
    + destruct (Pos.compare_spec m1 m2) as [F|F|F]; cbn.
      * split; [discriminate | intros [H|[_ H]]; lia].
      * split; [intros _; right; split; assumption | reflexivity].
      * split; [discriminate | intros [H|[_ H]]; lia].
    + split; [intros _; left; assumption | reflexivity].
    + split; [discriminate | intros [H|[H _]]; lia].
Qed.

Lemma lt_trans (a b c : number) : lt a b = true -> lt b c = true -> lt a c = true.
Proof.
  intros H1 H2.
  destruct a as [sa|sa| |sa ma ea], b as [sb|sb| |sb mb eb], c as [sc|sc| |sc mc ec];
    try (rewrite lt_finite in *; destruct sa, sb, sc; try tauto; lia);
    cbn in H1, H2 |- *;
    repeat match goal with s : bool |- _ => destruct s end;
    try discriminate; try reflexivity.
Qed.

Lemma lt_compare (a b : number) : lt a b = true <-> SFcompare a b = Some Lt.
Proof.
  unfold lt, SFltb. destruct (SFcompare a b) as [[]|]; split; congruence.
Qed.

Lemma clamp_spec (lo hi v : number) :
  lt lo hi = true ->
  (lt v lo = true -> clamp lo hi v = lo) /\
  (lt hi v = true -> clamp lo hi v = hi) /\
  (lt lo v = true -> lt v hi = true -> clamp lo hi v = v).
Proof.
  intros Hlh. unfold clamp, Math_min, Math_max. split; [|split].
  - intros Hv. pose proof (lt_trans _ _ _ Hv Hlh) as Hvh.
    apply lt_compare, SFcompare_antisym in Hvh. rewrite Hvh. cbn [CompOpp].
    apply lt_compare, SFcompare_antisym in Hv. now rewrite Hv.
  - intros Hv. apply lt_compare in Hv. rewrite Hv.
    apply lt_compare in Hlh. now rewrite Hlh.
  - intros Hl Hh. apply lt_compare, SFcompare_antisym in Hh. rewrite Hh. cbn [CompOpp].
    apply lt_compare in Hl. now rewrite Hl.
Qed.

Lemma clamp_stored (lo hi v : number) : lt lo hi = true -> stored lo hi v (clamp lo hi v).
Proof. intros H. destruct (clamp_spec lo hi v H) as (A & B & C). repeat split; auto. Qed.

(** X14.  An [update] message keeps the id and name of the player, sends nothing,
    and sets each of x, y and bubbleRadius that is a number: to the number
    itself when it lies strictly inside the range, to the upper bound when
    it lies above (1600, 900, 400), to the lower bound when it lies below
    (0, 0, 30); a field that is absent or not a number is kept. *)
Theorem update_clamps_each_field
    (k : nat) (msg : value) (now : number) (s : Server) (c : Conn) :
  get msg "type" = VStr "update" ->
  conns s !! k = Some c ->
  exists p',
    on_message k (Some msg) now s
      = Normal (put_conns (<[k := mkConn p' (readyState c)]> (conns s)) s) [] /\
    p_id p' = p_id (player c) /\ p_name p' = p_name (player c) /\
    match get msg "x" with
    | VNum v => stored (of_Z 0) (of_Z 1600) v (p_x p')
    | _ => p_x p' = p_x (player c)
    end /\
    match get msg "y" with
    | VNum v => stored (of_Z 0) (of_Z 900) v (p_y p')
    | _ => p_y p' = p_y (player c)
    end /\
    match get msg "bubbleRadius" with
    | VNum v => stored (of_Z 30) (of_Z 400) v (p_bubbleRadius p')
    | _ => p_bubbleRadius p' = p_bubbleRadius (player c)
    end.
Proof.
  intros Ht Hc. exists (updated msg (player c)).
  rewrite (on_message_update _ _ _ _ Ht), update_spec, (alter_insert _ _ _ _ Hc).
  split; [reflexivity|]. split; [reflexivity|]. split; [reflexivity|].
  unfold updated; cbn [p_x p_y p_bubbleRadius].
  split; [|split].
  - destruct (get msg "x"); try reflexivity. apply clamp_stored. vm_compute. reflexivity.
  - destruct (get msg "y"); try reflexivity. apply clamp_stored. vm_compute. reflexivity.
  - destruct (get msg "bubbleRadius"); try reflexivity. apply clamp_stored.
    vm_compute. reflexivity.
Qed.

Lemma update_clamps_each_field_witness :
  get (message "update" [("x", VNum (of_Z 5000))]) "type" = VStr "update" /\
  conns one_client !! 0%nat
    = Some (mkConn (mkPlayer "p1" "Pilotp1" (of_Z 800) (of_Z 450) (of_Z 120)) OPEN) /\
  exists p',
    on_message 0 (Some (message "update" [("x", VNum (of_Z 5000))])) t0 one_client
      = Normal (put_conns (<[0%nat := mkConn p' OPEN]> (conns one_client)) one_client) [] /\
    stored (of_Z 0) (of_Z 1600) (of_Z 5000) (p_x p').
Proof.
  split; [reflexivity|]. split; [exact one_client_conn|].
  destruct (update_clamps_each_field 0 (message "update" [("x", VNum (of_Z 5000))])
              t0 one_client _ eq_refl one_client_conn)
    as (p' & H1 & _ & _ & H2 & _).
  exists p'. split; [exact H1 | exact H2].
Defined.

(** X15.  Processing the same [update] message a second time yields the same
    state and the same (empty) list of frames as the first time. *)
Theorem update_is_idempotent (k : nat) (msg : value) (now now' : number) (s : Server) :
  get msg "type" = VStr "update" ->
  on_message k (Some msg) now' (final (on_message k (Some msg) now s))
    = on_message k (Some msg) now s.
Proof.
  intros Ht. rewrite !(on_message_update _ _ _ _ Ht), !update_spec. cbn [final].
  f_equal. unfold put_conns. cbn [conns nextId players coins]. f_equal.
  rewrite list_alter_alter_eq. apply list_alter_ext; [|reflexivity].
  intros [p st] _. unfold compose, lift, updated. cbn.
  destruct (as_number (get msg "x")), (as_number (get msg "y")),
    (as_number (get msg "bubbleRadius")); reflexivity.
Qed.

Lemma update_is_idempotent_witness :
  get (message "update" [("x", VNum (of_Z 5000))]) "type" = VStr "update" /\
  on_message 0 (Some (message "update" [("x", VNum (of_Z 5000))])) t0
    (final (on_message 0 (Some (message "update" [("x", VNum (of_Z 5000))])) t0 one_client))
  = on_message 0 (Some (message "update" [("x", VNum (of_Z 5000))])) t0 one_client.
Proof.
  split; [reflexivity|].
  exact (update_is_idempotent 0 (message "update" [("x", VNum (of_Z 5000))])
           t0 t0 one_client eq_refl).
Defined.

(** X16.  Whatever position and radius a player has, for instance after an
    unclamped [join], an [update] delivered by [JSON.parse] that carries
    numbers for x, y and bubbleRadius puts the player within bounds. *)
Theorem full_update_restores_bounds
    (k : nat) (msg : value) (now : number) (s : Server) (c : Conn) (x y r : number) :
  from_JSON msg = true ->
  get msg "type" = VStr "update" ->
  get msg "x" = VNum x -> get msg "y" = VNum y -> get msg "bubbleRadius" = VNum r ->
  conns s !! k = Some c ->
  exists c', conns (final (on_message k (Some msg) now s)) !! k = Some c' /\
    in_bounds (player c').
Proof.
  intros HJ Ht Hx Hy Hr Hc.
  rewrite (on_message_update _ _ _ _ Ht), update_spec. cbn [final put_conns conns].
  rewrite list_lookup_alter_eq, Hc. eexists. split; [reflexivity|].
  unfold lift, updated, in_bounds. cbn [player p_x p_y p_bubbleRadius].
  rewrite Hx, Hy, Hr. cbn [as_number].
  repeat split; apply clamp_bounds; try (vm_compute; reflexivity);
    eapply from_JSON_number; try eassumption;
    [rewrite Hx | rewrite Hx | rewrite Hy | rewrite Hy | rewrite Hr | rewrite Hr]; reflexivity.
Qed.

Lemma full_update_restores_bounds_witness :
  from_JSON full_update = true /\
  conns far_away !! 0%nat
    = Some (mkConn (mkPlayer "p1" "Pilotp1" (of_Z 5000) (of_Z (-7)) (of_Z 120)) OPEN) /\
  exists c', conns (final (on_message 0 (Some full_update) t0 far_away)) !! 0%nat = Some c' /\
    in_bounds (player c').
Proof.
  assert (H1 : from_JSON full_update = true) by (vm_compute; reflexivity).
  assert (H2 : conns far_away !! 0%nat
               = Some (mkConn (mkPlayer "p1" "Pilotp1" (of_Z 5000) (of_Z (-7)) (of_Z 120)) OPEN))
    by (vm_compute; reflexivity).
  split; [exact H1|]. split; [exact H2|].
  exact (full_update_restores_bounds 0 full_update t0 far_away _ _ _ _
           H1 eq_refl eq_refl eq_refl eq_refl H2).
Defined.

(** *** The registry *)

Lemma Map_get_of_In (k : string) (r : nat) (m : list (string * nat)) :
  In (k, r) m -> Map_get (VStr k) m <> None.
Proof.
  induction m as [|[k' r'] m IH]; cbn [In Map_get is_str]; [tauto|].
  intros [[= -> ->]|H].
  - now rewrite String.eqb_refl.
  - destruct (String.eqb k k'); [discriminate | auto].
Qed.

Lemma Map_get_NoDup (k : string) (r : nat) (m : list (string * nat)) :
  List.NoDup (map fst m) -> In (k, r) m -> Map_get (VStr k) m = Some r.
Proof.
  induction m as [|[k' r'] m IH]; cbn [In Map_get is_str map fst]; [tauto|].
  intros Hn. apply List.NoDup_cons_iff in Hn as [Hk Hm].
  intros [[= -> ->]|H].
  - now rewrite String.eqb_refl.
  - destruct (String.eqb_spec k k') as [->|N]; [|auto].
    exfalso. apply Hk. apply in_map_iff. exists (k', r). auto.
Qed.

Lemma refs_distinct (s : Server) :
  consistent s -> List.NoDup (map snd (players s)).
Proof.
  intros [_ _ _ _ Hr Hk]. revert Hr Hk.
  induction (players s) as [|[id r] m IH]; cbn [map fst snd]; intros Hr Hk; [constructor|].
  apply List.NoDup_cons_iff in Hk as [Hid Hm].
  apply List.NoDup_cons.
  - intros Hin. apply in_map_iff in Hin as ([id' r'] & E & Hin). cbn in E. subst r'.
    destruct (Hr id r (or_introl eq_refl)) as (c & Hc & Hi).
    destruct (Hr id' r (or_intror Hin)) as (c' & Hc' & Hi').
    apply Hid. apply in_map_iff. exists (id', r). split; [cbn; congruence | assumption].
  - apply IH; [|assumption]. intros id' r' H. apply Hr. now right.
Qed.

(** X2.  In every reachable state the Map holds each id once and each connection
    once, and every entry leads, by [players.get], to an existing
    connection whose player object carries that id. *)
Theorem registry_matches_connections (s : Server) :
  reachable s ->
  List.NoDup (map fst (players s)) /\
  List.NoDup (map snd (players s)) /\
  forall id r, In (id, r) (players s) ->
    Map_get (VStr id) (players s) = Some r /\
    exists c, conns s !! r = Some c /\ p_id (player c) = id.
Proof.
  intros Hs. apply consistent_reachable in Hs. pose proof (refs_distinct s Hs) as Hrefs.
  destruct Hs as [_ _ _ _ Hr Hk]. split; [assumption|]. split; [assumption|].
  intros id r Hin. split; [now apply Map_get_NoDup | now apply Hr].
Qed.

Lemma registry_matches_connections_witness :
  reachable two_clients /\ List.NoDup (map snd (players two_clients)).
Proof.
  split; [exact two_clients_reachable|].
  exact (proj1 (proj2 (registry_matches_connections two_clients two_clients_reachable))).
Defined.

(** X1.  When the socket of a connection closes, in every reachable state: its
    player is removed from the Map under its own id, every other
    registration is kept, the new state is broadcast, and no frame of that
    broadcast goes to the connection that closed. *)
Theorem close_unregisters_player (s : Server) (k : nat) (c : Conn) (now : number) :
  reachable s -> conns s !! k = Some c ->
  let id := p_id (player c) in
  let s' := put_players (Map_delete id (players s)) s in
  on_close k now s = Normal s' (broadcastState now s') /\
  Map_get (VStr id) (players s') = None /\
  (forall id', id' <> id ->
     Map_get (VStr id') (players s') = Map_get (VStr id') (players s)) /\
  (forall o, In o (broadcastState now s') -> fst o <> k).
Proof.
  intros Hs Hc id s'. apply consistent_reachable in Hs.
  destruct Hs as [_ _ _ _ Hr Hk].
  split; [rewrite on_close_spec, Hc; reflexivity|].
  split; [now apply Map_get_delete|].
  split; [intros id' N; now apply Map_get_delete_other|].
  intros o Ho E. apply broadcast_frames in Ho as (_ & id' & c' & Hin & _ & _).
  rewrite E in Hin. cbn [s' put_players players] in Hin.
  pose proof (Map_delete_In _ _ _ Hin) as Hin0.
  destruct (Hr id' k Hin0) as (c0 & Hc0 & Hid). rewrite Hc in Hc0. injection Hc0 as <-.
  fold id in Hid. subst id'.
  apply (Map_get_of_In _ _ _ Hin). now apply Map_get_delete.
Qed.

Lemma close_unregisters_player_witness :
  reachable two_clients /\
  conns two_clients !! 0%nat
    = Some (mkConn (mkPlayer "p1" "Pilotp1" (of_Z 800) (of_Z 450) (of_Z 120)) OPEN) /\
  on_close 0 t0 two_clients
    = Normal (put_players [("p2", 1%nat)] two_clients)
        (broadcastState t0 (put_players [("p2", 1%nat)] two_clients)).
Proof.
  split; [exact two_clients_reachable|]. split; [exact two_clients_conn|].
  exact (proj1 (close_unregisters_player two_clients 0 _ t0
                  two_clients_reachable two_clients_conn)).
Defined.

Lemma values_length (s : Server) :
  consistent s -> length (values s) = length (players s).
Proof.
  intros [_ _ _ _ Hr _]. unfold values. revert Hr.
  induction (players s) as [|[id r] m IH]; intros Hr; [reflexivity|].
  cbn [omap list_omap snd].
  destruct (Hr id r (or_introl eq_refl)) as (c & -> & _). cbn.
  f_equal. apply IH. intros id' r' H. apply Hr. now right.
Qed.

Lemma values_refs (s : Server) :
  consistent s -> map fst (values s) = map snd (players s).
Proof.
  intros [_ _ _ _ Hr _]. unfold values. revert Hr.
  induction (players s) as [|[id r] m IH]; intros Hr; [reflexivity|].
  cbn [omap list_omap snd map].
  destruct (Hr id r (or_introl eq_refl)) as (c & -> & _). cbn.
  f_equal. apply IH. intros id' r' H. apply Hr. now right.
Qed.

(** *** Broadcasts *)

(** X7.  [broadcastState] sends a frame to a connection exactly when that
    connection is registered in the Map and its socket is open, and every
    frame carries the one payload built from the current state. *)
Theorem broadcast_recipients (now : number) (s : Server) (o : Output) :
  In o (broadcastState now s) <->
  snd o = state_payload now s /\
  exists id c, In (id, fst o) (players s) /\ conns s !! fst o = Some c /\
    readyState c = OPEN.
Proof.
  split; [apply broadcast_frames|].
  intros (E & id & c & Hin & Hc & Ho). destruct o as [r v]. cbn [fst snd] in *. subst v.
  now apply broadcast_reaches with id c.
Qed.

Lemma broadcast_recipients_witness :
  In (1%nat, state_payload t0 two_clients) (broadcastState t0 two_clients).
Proof.
  apply (proj2 (broadcast_recipients t0 two_clients (1%nat, state_payload t0 two_clients))).
  split; [reflexivity|].
  exists "p2", (mkConn (mkPlayer "p2" "Pilotp2" (of_Z 800) (of_Z 450) (of_Z 120)) OPEN).
  repeat split; vm_compute; auto.
Defined.

Lemma omap_fst_NoDup {A : Type} (P : nat * A -> bool) (v : value) (l : list (nat * A)) :
  List.NoDup (map fst l) ->
  List.NoDup (map fst (omap (fun rc => if P rc then Some (fst rc, v) else None) l)).
Proof.
  induction l as [|[r a] l IH]; cbn [map fst omap list_omap]; [constructor|].
  intros Hn. apply List.NoDup_cons_iff in Hn as [Hr Hl].
  destruct (P (r, a)); cbn [map fst]; [|auto].
  apply List.NoDup_cons; [|auto].
  intros Hin. apply Hr. apply in_map_iff in Hin as ([r' v'] & E & Hin). cbn in E. subst r'.
  apply list_elem_of_In, list_elem_of_omap in Hin as ([r2 a2] & Hin & Hf).
  destruct (P (r2, a2)); [|discriminate]. injection Hf as <- _.
  apply in_map_iff. exists (r2, a2). split; [reflexivity | now apply list_elem_of_In].
Qed.

(** X8.  In every reachable state one run of [broadcastState] sends at most one
    frame to each connection. *)
Theorem broadcast_once_per_client (now : number) (s : Server) :
  reachable s -> List.NoDup (map fst (broadcastState now s)).
Proof.
  intros Hs. apply consistent_reachable in Hs. unfold broadcastState.
  apply (omap_fst_NoDup (fun rc => is_open (readyState (snd rc)))).
  rewrite values_refs by assumption. now apply refs_distinct.
Qed.

Lemma broadcast_once_per_client_witness :
  reachable two_clients /\ List.NoDup (map fst (broadcastState t0 two_clients)).
Proof.
  split; [exact two_clients_reachable|].
  exact (broadcast_once_per_client t0 two_clients two_clients_reachable).
Defined.

(** X9.  In every reachable state the payload of a broadcast has the fields
    type, t, players and coins; its players are the registered players in
    Map order, each with its id, name, x, y and bubbleRadius as stored, and
    its coins are the 20 coins with id, x, y and taken. *)
Theorem snapshot_lists_every_player_and_coin (now : number) (s : Server) :
  reachable s ->
  exists ps cs,
    state_payload now s =
      VObj [("type", VStr "state"); ("t", VNum now);
            ("players", VArr ps); ("coins", VArr cs)] /\
    Forall2 (fun kr v => exists c, conns s !! snd kr = Some c /\ p_id (player c) = fst kr /\
               v = VObj [("id", VStr (p_id (player c))); ("name", VStr (p_name (player c)));
                         ("x", VNum (p_x (player c))); ("y", VNum (p_y (player c)));
                         ("bubbleRadius", VNum (p_bubbleRadius (player c)))])
            (players s) ps /\
    Forall2 (fun c v => v = VObj [("id", VStr (c_id c)); ("x", VNum (c_x c));
                                 ("y", VNum (c_y c)); ("taken", VBool (c_taken c))])
            (coins s) cs /\
    length cs = 20%nat.
Proof.
  intros Hs. apply consistent_reachable in Hs. destruct Hs as [Hc _ _ _ Hr _].
  eexists _, _. split; [reflexivity|]. split; [|split].
  - unfold values. revert Hr. induction (players s) as [|[id r] m IH]; intros Hr.
    + constructor.
    + cbn [omap list_omap snd].
      destruct (Hr id r (or_introl eq_refl)) as (c & Hc' & Hid). rewrite Hc'. cbn.
      constructor; [exists c; repeat split; assumption|].
      apply IH. intros id' r' H. apply Hr. now right.
  - clear Hc. induction (coins s); constructor; auto.
  - rewrite length_map, <- (length_map c_id), Hc. reflexivity.
Qed.

Lemma snapshot_lists_every_player_and_coin_witness :
  reachable two_clients /\
  exists ps cs,
    state_payload t0 two_clients =
      VObj [("type", VStr "state"); ("t", VNum t0);
            ("players", VArr ps); ("coins", VArr cs)] /\
    length cs = 20%nat.
Proof.
  split; [exact two_clients_reachable|].
  destruct (snapshot_lists_every_player_and_coin t0 two_clients two_clients_reachable)
    as (ps & cs & H1 & _ & _ & H2).
  exists ps, cs. split; [exact H1 | exact H2].
Defined.

(** *** Identities and the size of the registry *)

(** X3.  In every reachable state the counter is one more than the number of
    connections accepted so far, up to 2^53, where it stays; and the n-th
    connection accepted carries the id 'p' followed by n (p1, p2, ...) up to
    p9007199254740992, which every later connection carries too, whatever
    happened in between. *)
Theorem ids_count_connections (s : Server) :
  reachable s ->
  nextId s = counter_after (length (conns s)) /\
  ids s = map nth_id (seq 0 (length (conns s))) /\
  (forall n : nat,
     (N.of_nat (S n) <= counter_max)%N ->
     counter_after n = N.of_nat (S n) /\ nth_id n = "p" ++ decimal (N.of_nat (S n))) /\
  (forall n : nat,
     (counter_max <= N.of_nat (S n))%N ->
     counter_after n = counter_max /\ nth_id n = "p9007199254740992").
Proof.
  intros Hs. apply consistent_reachable in Hs.
  split; [exact (counter_value s Hs)|]. split; [exact (ids_in_order s Hs)|].
  split; intros n Hn.
  - assert (E : counter_after n = N.of_nat (S n)) by (unfold counter_after; lia).
    split; [exact E|]. unfold nth_id. now rewrite E.
  - assert (E : counter_after n = counter_max) by (unfold counter_after; lia).
    split; [exact E|]. unfold nth_id. rewrite E. vm_compute. reflexivity.
Qed.

Lemma ids_count_connections_witness :
  reachable two_clients /\ nextId two_clients = 3%N /\ ids two_clients = ["p1"; "p2"].
Proof.
  split; [exact two_clients_reachable|].
  destruct (ids_count_connections two_clients two_clients_reachable) as (H1 & H2 & _).
  split; [rewrite H1 | rewrite H2]; vm_compute; reflexivity.
Defined.

Lemma Map_set_fresh (k : string) (r : nat) (m : list (string * nat)) :
  ~ In k (map fst m) -> Map_set k r m = (m ++ [(k, r)])%list.
Proof.
  induction m as [|[k' r'] m IH]; cbn [Map_set map fst In app]; [reflexivity|].
  intros H. destruct (String.eqb_spec k' k) as [->|N]; [tauto|].
  f_equal. apply IH. tauto.
Qed.

Lemma keys_are_ids (s : Server) (id : string) :
  consistent s -> In id (map fst (players s)) -> In id (ids s).
Proof.
  intros [_ _ _ _ Hr _] Hin. apply in_map_iff in Hin as ([id' r] & E & Hin). cbn in E. subst id'.
  destruct (Hr id r Hin) as (c & Hc & <-).
  unfold ids. apply in_map_iff. exists c. split; [reflexivity|].
  apply list_elem_of_In. eapply list_elem_of_lookup_2, Hc.
Qed.

Lemma connected_players (s : Server) :
  consistent s -> (N.of_nat (length (conns s)) < counter_max)%N ->
  players (connected s) = (players s ++ [(fresh_id s, length (conns s))])%list.
Proof.
  intros Hs Hb. cbn [connected players].
  apply Map_set_fresh. intros Hin. apply (fresh_id_unused s Hs Hb).
  now apply keys_are_ids.
Qed.

(** X4.  In every reachable state, as long as fewer than 2^53 connections have
    been accepted, a new connection is registered at the end of the Map,
    under its fresh id, and no existing entry is replaced. *)
Theorem connection_is_appended_to_registry (s : Server) (now : number) :
  reachable s -> (N.of_nat (length (conns s)) < 9007199254740992)%N ->
  players (final (on_connection now s))
    = (players s ++ [(fresh_id s, length (conns s))])%list.
Proof.
  intros Hs Hb. apply consistent_reachable in Hs.
  rewrite on_connection_spec. cbn [final]. now apply connected_players.
Qed.

Lemma connection_is_appended_to_registry_witness :
  reachable one_client /\
  (N.of_nat (length (conns one_client)) < 9007199254740992)%N /\
  players (final (on_connection t0 one_client)) = [("p1", 0%nat); ("p2", 1%nat)].
Proof.
  assert (H : (N.of_nat (length (conns one_client)) < 9007199254740992)%N) by reflexivity.
  split; [exact one_client_reachable|]. split; [exact H|].
  rewrite (connection_is_appended_to_registry one_client t0 one_client_reachable H).
  vm_compute. reflexivity.
Defined.

Lemma run_cons_final (e : Event) (es : list Event) (s s1 : Server) (o : list Output) :
  step e s = Normal s1 o -> final (run (e :: es) s) = final (run es s1).
Proof.
  intros H. cbn [run]. rewrite (and_then_Normal _ _ _ _ _ H). now destruct (run es s1).
Qed.

Lemma reachable_run (es : list Event) (s s' : Server) (out : list Output) :
  reachable s -> run es s = Normal s' out -> reachable s'.
Proof.
  revert s out. induction es as [|e es IH]; intros s out Hs; cbn [run].
  - intros [= <- _]. assumption.
  - unfold and_then. destruct (step e s) as [s1 o1|s1 o1] eqn:E; [|discriminate].
    destruct (run es s1) as [s2 o2|s2 o2] eqn:E2; [|discriminate].
    intros [= <- _]. apply (IH s1 o2); [|assumption].
    now apply reachable_step with e s o1.
Qed.

Lemma closes_entries (ks : list (nat * number)) (s : Server) (id : string) (r : nat) :
  consistent s ->
  In (id, r) (players (final (run (closes ks) s))) ->
  In (id, r) (players s) /\ ~ In r (map fst ks).
Proof.
  revert s. induction ks as [|[k now] ks IH]; intros s Hs; cbn [closes map fst snd].
  - cbn [run skip final In]. tauto.
  - fold (closes ks).
    assert (Hstep : exists s1 o, step (Close k now) s = Normal s1 o /\ consistent s1 /\
              (forall x, In x (players s1) -> In x (players s)) /\
              (forall id', ~ In (id', k) (players s1))).
    { cbn [step]. rewrite on_close_spec. destruct (conns s !! k) as [c|] eqn:Ec.
      - eexists _, _. split; [reflexivity|].
        split; [apply (consistent_effect s); [assumption | constructor]|].
        split; [intros x; apply Map_delete_In|].
        intros id' Hin. cbn [put_players players] in Hin.
        pose proof (Map_delete_In _ _ _ Hin) as Hin0.
        destruct Hs as [_ _ _ _ Hr Hk].
        destruct (Hr id' k Hin0) as (c0 & Hc0 & Hid). rewrite Ec in Hc0.
        injection Hc0 as <-. subst id'.
        apply (Map_get_of_In _ _ _ Hin). now apply Map_get_delete.
      - eexists _, _. split; [reflexivity|]. split; [assumption|].
        split; [auto|]. intros id' Hin.
        destruct Hs as [_ _ _ _ Hr _]. destruct (Hr id' k Hin) as (c0 & Hc0 & _).
        congruence. }
    destruct Hstep as (s1 & o & Hstep & Hs1 & Hsub & Hk).
    rewrite (run_cons_final _ _ _ _ _ Hstep). intros Hin.
    destruct (IH s1 Hs1 Hin) as [Hin1 Hnot]. split; [auto|].
    cbn [In]. intros [<-|H]; [apply (Hk id), Hin1 | auto].
Qed.

(** X6.  From every reachable state, once the socket of every connection
    accepted so far has closed, in any order and any number of times, the
    registry is empty. *)
Theorem closing_all_empties_registry (s : Server) (ks : list (nat * number)) :
  reachable s ->
  (forall r, (r < length (conns s))%nat -> In r (map fst ks)) ->
  players (final (run (closes ks) s)) = [].
Proof.
  intros Hs Hall. apply consistent_reachable in Hs.
  destruct (players (final (run (closes ks) s))) as [|[id r] m] eqn:E; [reflexivity|].
  exfalso.
  destruct (closes_entries ks s id r Hs) as [Hin Hnot]; [rewrite E; now left|].
  apply Hnot, Hall. destruct Hs as [_ _ _ _ Hr _].
  destruct (Hr id r Hin) as (c & Hc & _). now apply lookup_lt_Some in Hc.
Qed.

Lemma closing_all_empties_registry_witness :
  reachable two_clients /\
  (forall r, (r < length (conns two_clients))%nat -> In r (map fst [(1%nat, t0); (0%nat, t0)])) /\
  players (final (run (closes [(1%nat, t0); (0%nat, t0)]) two_clients)) = [].
Proof.
  assert (H : forall r, (r < length (conns two_clients))%nat ->
                In r (map fst [(1%nat, t0); (0%nat, t0)])).
  { intros r Hr. change (length (conns two_clients)) with 2%nat in Hr. cbn.
    destruct r as [|[|r]]; [auto | auto | lia]. }
  split; [exact two_clients_reachable|]. split; [exact H|].
  exact (closing_all_empties_registry two_clients _ two_clients_reachable H).
Defined.

(** X5.  From every reachable state, n connections in a row that bring the
    number of connections accepted to 2^53 at most all complete, add
    exactly n players and n entries to the registry, and the ids registered
    stay pairwise distinct. *)
Theorem opening_n_registers_n (s : Server) (nows : list number) :
  reachable s ->
  (N.of_nat (length (conns s)) + N.of_nat (length nows) <= 9007199254740992)%N ->
  exists s' out,
    run (opens nows) s = Normal s' out /\
    length (players s') = (length (players s) + length nows)%nat /\
    length (conns s') = (length (conns s) + length nows)%nat /\
    List.NoDup (map fst (players s')).
Proof.
  fold counter_max. revert s. induction nows as [|now nows IH]; intros s Hs Hb.
  - exists s, []. cbn. rewrite !Nat.add_0_r. repeat split.
    now destruct (consistent_reachable s Hs).
  - assert (Hstep : step (Connection now) s = Normal (connected s)
              ((length (conns s), welcome (fresh_id s) (connected s))
                 :: broadcastState now (connected s))) by apply on_connection_spec.
    assert (Hs1 : reachable (connected s)) by (eapply reachable_step; eassumption).
    cbn [length] in Hb.
    assert (Hlt : (N.of_nat (length (conns s)) < counter_max)%N) by lia.
    assert (Hb1 : (N.of_nat (length (conns (connected s))) + N.of_nat (length nows)
                   <= counter_max)%N).
    { cbn [connected conns]. rewrite length_app. cbn [length]. lia. }
    destruct (IH _ Hs1 Hb1) as (s' & out & Hrun & Hp & Hc & Hn).
    eexists s', _. cbn [opens map run]. fold (opens nows).
    rewrite (and_then_Normal _ _ _ _ _ Hstep), Hrun.
    split; [reflexivity|]. rewrite Hp, Hc.
    rewrite (connected_players s (consistent_reachable s Hs) Hlt).
    cbn [connected conns]. rewrite !length_app. cbn [length]. repeat split; try lia.
    assumption.
Qed.

Lemma opening_n_registers_n_witness :
  reachable one_client /\
  (N.of_nat (length (conns one_client)) + N.of_nat (length [t0; t0; t0])
     <= 9007199254740992)%N /\
  exists s' out,
    run (opens [t0; t0; t0]) one_client = Normal s' out /\
    length (players s') = (length (players one_client) + length [t0; t0; t0])%nat /\
    length (conns s') = (length (conns one_client) + length [t0; t0; t0])%nat /\
    List.NoDup (map fst (players s')).
Proof.
  assert (H : (N.of_nat (length (conns one_client)) + N.of_nat (length [t0; t0; t0])
                 <= 9007199254740992)%N)
    by (apply N.leb_le; vm_compute; reflexivity).
  split; [exact one_client_reachable|]. split; [exact H|].
  exact (opening_n_registers_n one_client [t0; t0; t0] one_client_reachable H).
Defined.

(** *** Coins *)

(** X17.  No event changes the number of coins, the id of a coin or its position. *)
Theorem coins_never_move (e : Event) (s : Server) :
  map (fun c => (c_id c, c_x c, c_y c)) (coins (final (step e s)))
    = map (fun c => (c_id c, c_x c, c_y c)) (coins s).
Proof.
  destruct (step_effect e s) as [|k g Hg|i coin _ _|id|]; try reflexivity.
  cbn [put_coins coins]. apply map_alter_same. reflexivity.
Qed.

(** X18.  In every reachable state the coins still carry the ids c0 to c19 in
    order and sit at integer coordinates with 80 <= x <= 1519 and
    80 <= y <= 739. *)
Theorem reachable_coins_stay_seeded (s : Server) :
  reachable s ->
  map c_id (coins s) = seeded_ids /\ List.Forall placed (coins s).
Proof. intros Hs. now destruct (consistent_reachable s Hs). Qed.

Lemma reachable_coins_stay_seeded_witness :
  reachable two_clients /\
  map c_id (coins two_clients) = seeded_ids /\ List.Forall placed (coins two_clients).
Proof.
  split; [exact two_clients_reachable|].
  exact (reachable_coins_stay_seeded two_clients two_clients_reachable).
Defined.

Lemma find_coin_None (v : value) (l : list Coin) :
  as_string v = None -> find_coin v l = None.
Proof.
  intros Hv. induction l as [|c l IH]; cbn [find_coin]; [reflexivity|].
  rewrite IH. destruct v; try reflexivity. discriminate.
Qed.

Lemma find_coin_NoDup (l : list Coin) (i : nat) (c : Coin) :
  List.NoDup (map c_id l) -> l !! i = Some c ->
  find_coin (VStr (c_id c)) l = Some (i, c).
Proof.
  revert i. induction l as [|a l IH]; intros i Hn Hi; [discriminate|].
  cbn [map] in Hn. apply List.NoDup_cons_iff in Hn as [Ha Hl].
  destruct i as [|i]; cbn [find_coin is_str].
  - injection Hi as ->. now rewrite String.eqb_refl.
  - cbn in Hi. destruct (String.eqb_spec (c_id c) (c_id a)) as [E|N].
    + exfalso. apply Ha. rewrite <- E. apply in_map, list_elem_of_In.
      eapply list_elem_of_lookup_2, Hi.
    + now rewrite (IH i Hl Hi).
Qed.

(** X19.  In every reachable state [coins.find] with the id of a coin returns that
    very coin: the coin at position i, below 20, is named by the i-th id. *)
Theorem coin_is_found_by_its_id (s : Server) (i : nat) (c : Coin) :
  reachable s -> coins s !! i = Some c ->
  (i < 20)%nat /\ seeded_ids !! i = Some (c_id c) /\
  find_coin (VStr (c_id c)) (coins s) = Some (i, c).
Proof.
  intros Hs Hi. apply consistent_reachable in Hs. destruct Hs as [Hc _ _ _ _ _].
  assert (Hid : seeded_ids !! i = Some (c_id c)).
  { rewrite <- Hc. change (map c_id (coins s)) with (c_id <$> coins s).
    now rewrite list_lookup_fmap, Hi. }
  split; [apply lookup_lt_Some in Hid; exact Hid|]. split; [assumption|].
  apply find_coin_NoDup; [|assumption]. rewrite Hc. apply seeded_ids_NoDup.
Qed.

Lemma coin_is_found_by_its_id_witness :
  reachable one_client /\
  coins one_client !! 7%nat = Some (mkCoin "c7" (of_Z 80) (of_Z 80) false) /\
  find_coin (VStr "c7") (coins one_client)
    = Some (7%nat, mkCoin "c7" (of_Z 80) (of_Z 80) false).
Proof.
  assert (H : coins one_client !! 7%nat = Some (mkCoin "c7" (of_Z 80) (of_Z 80) false))
    by (vm_compute; reflexivity).
  split; [exact one_client_reachable|]. split; [exact H|].
  exact (proj2 (proj2 (coin_is_found_by_its_id one_client 7 _ one_client_reachable H))).
Defined.

(** *** Messages *)

(** X13.  A message on one connection, of any content, leaves the player object
    and socket state of every other connection, the counter and the Map as
    they were. *)
Theorem message_touches_own_player_only
    (k j : nat) (raw : option value) (now : number) (s : Server) :
  j <> k ->
  conns (final (on_message k raw now s)) !! j = conns s !! j /\
  nextId (final (on_message k raw now s)) = nextId s /\
  players (final (on_message k raw now s)) = players s.
Proof.
  intros N.
  destruct (on_message_cases k raw now s) as [-> | (msg & -> & [-> | [-> | [-> | [-> | ->]]]])].
  - auto.
  - rewrite join_spec. cbn [final put_conns conns nextId players].
    rewrite list_lookup_alter_ne by congruence. auto.
  - rewrite update_spec. cbn [final put_conns conns nextId players].
    rewrite list_lookup_alter_ne by congruence. auto.
  - rewrite collect_spec.
    destruct (find_coin _ _) as [[i coin]|]; [|auto].
    destruct (conns s !! k); [|auto]. destruct (_ && _); auto.
  - rewrite signal_spec.
    destruct (Map_get _ _); [|auto].
    destruct (conns s !! _), (conns s !! k); auto. destruct (is_open _); auto.
    destruct (stringify_returns _ _); auto.
  - rewrite chat_spec. destruct (String_returns _ _); auto.
Qed.

Lemma message_touches_own_player_only_witness :
  1%nat <> 0%nat /\
  conns (final (on_message 0 (Some (message "join" [("x", VNum (of_Z 5000))])) t0
                  two_clients)) !! 1%nat
    = conns two_clients !! 1%nat.
Proof.
  assert (H : 1%nat <> 0%nat) by discriminate.
  split; [exact H|].
  exact (proj1 (message_touches_own_player_only 0 1
                  (Some (message "join" [("x", VNum (of_Z 5000))])) t0 two_clients H)).
Defined.

Lemma throws_only_in_two_branches (k : nat) (raw : option value) (now : number)
    (s s' : Server) (out : list Output) :
  on_message k raw now s = Throws s' out ->
  exists msg, raw = Some msg /\
    ((get msg "type" = VStr "chat" /\ on_message k raw now s = chat msg now s) \/
     (get msg "type" = VStr "signal" /\ on_message k raw now s = signal k msg s)).
Proof.
  destruct raw as [msg|]; [|discriminate].
  destruct (get msg "type") as [| | | |t| |] eqn:Ht;
    try (rewrite dropped_noop
           by (right; right; intros t' _; rewrite Ht; reflexivity); discriminate).
  destruct (String.eqb_spec t "join") as [->|N1];
    [rewrite (on_message_join _ _ _ _ Ht), join_spec; discriminate|].
  destruct (String.eqb_spec t "update") as [->|N2];
    [rewrite (on_message_update _ _ _ _ Ht), update_spec; discriminate|].
  destruct (String.eqb_spec t "collect") as [->|N3].
  { rewrite (on_message_collect _ _ _ _ Ht), collect_spec.
    destruct (find_coin _ _) as [[i coin]|]; [|discriminate].
    destruct (conns s !! k); [|discriminate]. destruct (_ && _); discriminate. }
  destruct (String.eqb_spec t "signal") as [->|N4].
  { intros _. exists msg. split; [reflexivity|]. right. split; [assumption|].
    now apply on_message_signal. }
  destruct (String.eqb_spec t "chat") as [->|N5].
  { intros _. exists msg. split; [reflexivity|]. left. split; [assumption|].
    now apply on_message_chat. }
  rewrite dropped_noop; [discriminate|].
  right; right. intros t' Hin. rewrite Ht. cbn [is_str].
  apply String.eqb_neq. cbn in Hin. intuition congruence.
Qed.

(** X11.  An event ends in an uncaught exception exactly when it is a [chat]
    message whose text [String] does not convert, or a [signal] message for
    a registered player with an open socket whose frame [JSON.stringify]
    does not serialise; the exception leaves the state as it was and nothing
    has been sent.  Every other event returns normally. *)
Theorem uncaught_exceptions_come_from_client_data
    (e : Event) (s s' : Server) (out : list Output) :
  step e s = Throws s' out <->
  s' = s /\ out = [] /\
  exists k msg now,
    e = Message k (Some msg) now /\
    ((get msg "type" = VStr "chat" /\
      (convertible (or_else (get msg "text") (VStr "")) = false \/
       (join_room (engine s) < array_depth (or_else (get msg "text") (VStr "")))%nat)) \/
     (get msg "type" = VStr "signal" /\
      exists r target me,
        Map_get (get msg "to") (players s) = Some r /\
        conns s !! r = Some target /\ readyState target = OPEN /\
        conns s !! k = Some me /\
        (3 + stringify_room (engine s) <= depth (get msg "data"))%nat)).
Proof.
  split.
  - destruct e as [now|k raw now|k now|now|k st]; cbn [step].
    + rewrite on_connection_spec. discriminate.
    + intros H.
      destruct (throws_only_in_two_branches _ _ _ _ _ _ H)
        as (msg & -> & [[Ht E]|[Ht E]]); rewrite E in H.
      * rewrite chat_spec in H.
        destruct (String_returns _ _) eqn:Es; [discriminate|].
        injection H as <- <-. apply String_returns_false in Es.
        split; [reflexivity|]. split; [reflexivity|]. exists k, msg, now. auto.
      * rewrite signal_spec in H.
        destruct (Map_get _ _) as [r|] eqn:Er; [|discriminate].
        destruct (conns s !! r) as [target|] eqn:Etarget; [|discriminate].
        destruct (conns s !! k) as [me|] eqn:Eme; [|discriminate].
        destruct (readyState target) eqn:Eo; try discriminate. cbn [is_open] in H.
        destruct (stringify_returns _ _) eqn:Es; [discriminate|].
        injection H as <- <-. rewrite signal_frame_serialises in Es.
        apply Nat.ltb_ge in Es.
        split; [reflexivity|]. split; [reflexivity|]. exists k, msg, now.
        split; [reflexivity|]. right. split; [assumption|].
        exists r, target, me. auto.
    + rewrite on_close_spec. destruct (conns s !! k); discriminate.
    + discriminate.
    + discriminate.
  - intros (-> & -> & k & msg & now & -> &
            [[Ht Hs]|(Ht & r & target & me & Hr & Htarget & Hopen & Hme & Hs)]);
      cbn [step].
    + apply String_returns_false in Hs.
      now rewrite (on_message_chat _ _ _ _ Ht), chat_spec, Hs.
    + rewrite (on_message_signal _ _ _ _ Ht), signal_spec, Hr, Htarget, Hme, Hopen.
      cbn [is_open]. rewrite signal_frame_serialises.
      now rewrite (proj2 (Nat.ltb_ge _ _) Hs).
Qed.

Lemma uncaught_exceptions_come_from_client_data_witness :
  step (Message 0 (Some poisoned_chat) t0) one_client = Throws one_client [].
Proof.
  apply (proj2 (uncaught_exceptions_come_from_client_data
                  (Message 0 (Some poisoned_chat) t0) one_client one_client [])).
  split; [reflexivity|]. split; [reflexivity|].
  exists 0%nat, poisoned_chat, t0. split; [reflexivity|]. left.
  split; [reflexivity|]. left. reflexivity.
Defined.

Lemma broadcast_deliverable (now : number) (s : Server) (o : Output) :
  In o (broadcastState now s) -> deliverable s o.
Proof.
  intros H. apply broadcast_frames in H as (E & id & c & _ & Hc & Ho). split.
  - eauto.
  - rewrite E. cbn. auto.
Qed.

(** X10.  Every frame any event makes the server send goes to a connection whose
    socket is open in the state reached, and is a [welcome], a [state] or a
    [signal] frame: no other kind of frame, and no error reply, is sent. *)
Theorem frames_go_to_open_sockets (e : Event) (s : Server) (o : Output) :
  In o (sent (step e s)) -> deliverable (final (step e s)) o.
Proof.
  destruct e as [now|k raw now|k now|now|k st]; cbn [step].
  - rewrite on_connection_spec. cbn [sent final]. intros [<-|H].
    + split; [|cbn; auto]. eexists. split; [apply list_lookup_middle; reflexivity|reflexivity].
    + now apply broadcast_deliverable in H.
  - destruct (on_message_cases k raw now s)
      as [-> | (msg & -> & [-> | [-> | [-> | [-> | ->]]]])].
    + intros [].
    + rewrite join_spec. cbn [sent final]. apply broadcast_deliverable.
    + rewrite update_spec. intros [].
    + rewrite collect_spec.
      destruct (find_coin _ _) as [[i coin]|]; [|intros []].
      destruct (conns s !! k); [|intros []].
      destruct (_ && _); [|intros []]. cbn [sent final]. apply broadcast_deliverable.
    + rewrite signal_spec.
      destruct (Map_get _ _) as [r|]; [|intros []].
      destruct (conns s !! r) as [target|] eqn:Er; [|intros []].
      destruct (conns s !! k); [|intros []].
      destruct (is_open (readyState target)) eqn:Eo; [|intros []].
      destruct (stringify_returns _ _); [|intros []].
      cbn [sent final]. intros [<-|[]]. split; [|cbn; auto].
      exists target. split; [assumption|]. now destruct (readyState target).
    + rewrite chat_spec. destruct (String_returns _ _); [|intros []].
      cbn [sent final]. apply broadcast_deliverable.
  - rewrite on_close_spec. destruct (conns s !! k); [|intros []].
    cbn [sent final]. apply broadcast_deliverable.
  - cbn [sent final emit]. apply broadcast_deliverable.
  - intros [].
Qed.

Lemma frames_go_to_open_sockets_witness :
  In (0%nat, state_payload t0 one_client) (sent (step (Tick t0) one_client)) /\
  deliverable (final (step (Tick t0) one_client)) (0%nat, state_payload t0 one_client).
Proof.
  assert (H : In (0%nat, state_payload t0 one_client) (sent (step (Tick t0) one_client)))
    by (left; reflexivity).
  split; [exact H|].
  exact (frames_go_to_open_sockets (Tick t0) one_client _ H).
Defined.

(** X20.  The outcome of a [collect] message depends on the message through its
    coinId alone: coordinates or any other field a client adds change
    nothing, the distance is taken from the stored position. *)
Theorem collect_reads_only_coinId
    (k : nat) (msg msg' : value) (now : number) (s : Server) :
  get msg "type" = VStr "collect" -> get msg' "type" = VStr "collect" ->
  get msg "coinId" = get msg' "coinId" ->
  on_message k (Some msg) now s = on_message k (Some msg') now s.
Proof.
  intros Ht Ht' E.
  rewrite (on_message_collect _ _ _ _ Ht), (on_message_collect _ _ _ _ Ht'), !collect_spec.
  now rewrite E.
Qed.

Lemma collect_reads_only_coinId_witness :
  get (message "collect" [("coinId", VStr "c0")]) "coinId"
    = get (message "collect" [("x", VNum (of_Z 80)); ("coinId", VStr "c0")]) "coinId" /\
  on_message 0 (Some (message "collect" [("coinId", VStr "c0")])) t0 one_client
    = on_message 0 (Some (message "collect" [("x", VNum (of_Z 80)); ("coinId", VStr "c0")]))
        t0 one_client.
Proof.
  split; [reflexivity|].
  exact (collect_reads_only_coinId 0 (message "collect" [("coinId", VStr "c0")])
           (message "collect" [("x", VNum (of_Z 80)); ("coinId", VStr "c0")])
           t0 one_client eq_refl eq_refl eq_refl).
Defined.

Lemma Map_get_None (v : value) (m : list (string * nat)) :
  as_string v = None -> Map_get v m = None.
Proof.
  intros Hv. induction m as [|[k r] m IH]; cbn [Map_get]; [reflexivity|].
  rewrite IH. destruct v; try reflexivity. discriminate.
Qed.

(** X21.  A [collect] whose coinId is absent or not a string, and a [signal] whose
    [to] is absent or not a string, change nothing and send nothing. *)
Theorem non_string_keys_are_dropped (k : nat) (msg : value) (now : number) (s : Server) :
  (get msg "type" = VStr "collect" -> as_string (get msg "coinId") = None ->
   on_message k (Some msg) now s = Normal s []) /\
  (get msg "type" = VStr "signal" -> as_string (get msg "to") = None ->
   on_message k (Some msg) now s = Normal s []).
Proof.
  split; intros Ht Hk.
  - now rewrite (on_message_collect _ _ _ _ Ht), collect_spec, find_coin_None.
  - now rewrite (on_message_signal _ _ _ _ Ht), signal_spec, Map_get_None.
Qed.

Lemma non_string_keys_are_dropped_witness :
  as_string (get (message "collect" [("coinId", VNum (of_Z 0))]) "coinId") = None /\
  on_message 0 (Some (message "collect" [("coinId", VNum (of_Z 0))])) t0 one_client
    = Normal one_client [].
Proof.
  split; [reflexivity|].
  exact (proj1 (non_string_keys_are_dropped 0 (message "collect" [("coinId", VNum (of_Z 0))])
                  t0 one_client) eq_refl eq_refl).
Defined.

Lemma primitive_String_returns (eng : Engine) (v : value) :
  primitive v = true -> String_returns eng (or_else v (VStr "")) = true.
Proof.
  intros H. unfold or_else. destruct (truthy v); [|reflexivity].
  destruct v; try discriminate; reflexivity.
Qed.

(** X12.  A [chat] message whose text [String] converts (a text without an
    object that has an own toString property inside its arrays, and with no
    more arrays inside one another than the engine converts), in particular
    every text that is absent, null, a boolean, a number or a string, leaves
    the state unchanged and broadcasts it; the frames do not depend on the
    text. *)
Theorem chat_broadcasts_without_text (k : nat) (msg : value) (now : number) (s : Server) :
  get msg "type" = VStr "chat" ->
  (convertible (or_else (get msg "text") (VStr "")) = true ->
   (array_depth (or_else (get msg "text") (VStr "")) <= join_room (engine s))%nat ->
   on_message k (Some msg) now s = Normal s (broadcastState now s)) /\
  (primitive (get msg "text") = true ->
   on_message k (Some msg) now s = Normal s (broadcastState now s)).
Proof.
  intros Ht. rewrite (on_message_chat _ _ _ _ Ht), chat_spec.
  split; [|intros H; now rewrite primitive_String_returns].
  intros Hc Hd. unfold String_returns. rewrite Hc.
  now rewrite (proj2 (Nat.leb_le _ _) Hd).
Qed.

(** A chat whose text is the array ["hello"]. *)
Lemma chat_broadcasts_without_text_witness :
  get (message "chat" [("text", VArr [VStr "hello"])]) "type" = VStr "chat" /\
  convertible (or_else (get (message "chat" [("text", VArr [VStr "hello"])]) "text")
                 (VStr "")) = true /\
  (array_depth (or_else (get (message "chat" [("text", VArr [VStr "hello"])]) "text")
                  (VStr "")) <= join_room (engine one_client))%nat /\
  on_message 0 (Some (message "chat" [("text", VArr [VStr "hello"])])) t0 one_client
    = Normal one_client (broadcastState t0 one_client).
Proof.
  assert (H : (array_depth
                 (or_else (get (message "chat" [("text", VArr [VStr "hello"])]) "text")
                    (VStr "")) <= join_room (engine one_client))%nat)
    by (apply Nat.leb_le; reflexivity).
  split; [reflexivity|]. split; [reflexivity|]. split; [exact H|].
  exact (proj1 (chat_broadcasts_without_text 0
                  (message "chat" [("text", VArr [VStr "hello"])])
                  t0 one_client eq_refl) eq_refl H).
Defined.

(** X22.  A [signal] message from the player of connection k: if [to] names a
    registered player whose socket is open and [data] nests fewer levels
    than [JSON.stringify] descends below the frame, exactly the frame
    {type: 'signal', from: id of the sender, data}, with [data] as
    received, is sent to that player and to nobody else, and the state does
    not change; with deeper [data] the handler throws and nothing is sent;
    if [to] names nobody, or the target's socket is not open, nothing is
    sent to anyone and the handler returns normally. *)
Theorem signal_reaches_only_its_target (k : nat) (msg : value) (now : number) (s : Server) :
  get msg "type" = VStr "signal" ->
  (forall r target me,
     Map_get (get msg "to") (players s) = Some r ->
     conns s !! r = Some target -> readyState target = OPEN ->
     conns s !! k = Some me ->
     on_message k (Some msg) now s =
       if (depth (get msg "data") <? 3 + stringify_room (engine s))%nat
       then Normal s [(r, VObj [("type", VStr "signal");
                                ("from", VStr (p_id (player me)));
                                ("data", get msg "data")])]
       else Throws s []) /\
  (Map_get (get msg "to") (players s) = None ->
   on_message k (Some msg) now s = Normal s []) /\
  (forall r target,
     Map_get (get msg "to") (players s) = Some r ->
     conns s !! r = Some target -> readyState target <> OPEN ->
     on_message k (Some msg) now s = Normal s []).
Proof.
  intros Ht. rewrite (on_message_signal _ _ _ _ Ht), signal_spec.
  split; [|split].
  - intros r target me -> -> -> ->. cbn [is_open].
    now rewrite signal_frame_serialises.
  - now intros ->.
  - intros r target -> -> Hn. destruct (conns s !! k); [|reflexivity].
    destruct (readyState target); try reflexivity. now destruct Hn.
Qed.

(** The first of two clients signals the second. *)
Lemma signal_reaches_only_its_target_witness :
  get (message "signal" [("to", VStr "p2"); ("data", VStr "offer")]) "type"
    = VStr "signal" /\
  on_message 0 (Some (message "signal" [("to", VStr "p2"); ("data", VStr "offer")]))
      t0 two_clients
    = Normal two_clients
        [(1%nat, VObj [("type", VStr "signal"); ("from", VStr "p1");
                       ("data", VStr "offer")])].
Proof.
  split; [reflexivity|].
  rewrite (proj1 (signal_reaches_only_its_target 0
                  (message "signal" [("to", VStr "p2"); ("data", VStr "offer")])
                  t0 two_clients eq_refl) 1%nat
           (mkConn (mkPlayer "p2" "Pilotp2" (of_Z 800) (of_Z 450) (of_Z 120)) OPEN)
           (mkConn (mkPlayer "p1" "Pilotp1" (of_Z 800) (of_Z 450) (of_Z 120)) OPEN));
    vm_compute; reflexivity.
Defined.

(** *** Numbers *)

(** X23.  In every reachable state, for a [collect] message naming a coin that
    is not yet taken, sent by a player whose stored coordinates are integers
    below 2^25 in magnitude: the coin is taken exactly when the squared
    Euclidean distance between coin and player, in exact arithmetic, is
    below 400.  On such positions binary64 arithmetic does not round. *)
Theorem collect_on_integer_positions
    (k : nat) (msg : value) (now : number) (s : Server) (i : nat) (coin : Coin) (c : Conn)
    (px py : Z) :
  reachable s ->
  get msg "type" = VStr "collect" ->
  find_coin (get msg "coinId") (coins s) = Some (i, coin) ->
  c_taken coin = false ->
  conns s !! k = Some c ->
  p_x (player c) = of_Z px -> p_y (player c) = of_Z py ->
  Z.abs px < 2 ^ 25 -> Z.abs py < 2 ^ 25 ->
  exists d2 : Q,
    sqdist coin (player c) = Some d2 /\
    ((d2 < 400)%Q <->
     c_taken <$> coins (final (on_message k (Some msg) now s)) !! i = Some true).
Proof.
  intros Hs Ht Hf Hu Hc Hx Hy Hpx Hpy. apply consistent_reachable in Hs.
  destruct (find_coin_Some _ _ _ _ Hf) as [Hi _].
  pose proof (coin_places s Hs) as Hplaced.
  rewrite List.Forall_forall in Hplaced.
  destruct (Hplaced coin) as (kx & ky & Hkx & Hky & Bx & By).
  { apply list_elem_of_In. eapply list_elem_of_lookup_2, Hi. }
  assert (H25 : 2 ^ 25 = 33554432) by reflexivity.
  assert (H53 : 2 ^ 25 < 2 ^ 53) by (apply Z.pow_lt_mono_r; lia).
  destruct (dist2_exact coin (player c) kx ky px py Hkx Hky Hx Hy) as [_ Hlt]; try lia.
  destruct (sqdist_integers coin (player c) kx ky px py Hkx Hky Hx Hy) as (d2 & Hd & Eq);
    try lia.
  exists d2. split; [exact Hd|].
  rewrite (on_message_collect _ _ _ _ Ht), collect_spec, Hf, Hc, Hu, Hlt.
  cbn [negb andb]. rewrite Eq. change 400%Q with (inject_Z 400). rewrite <- Zlt_Qlt.
  destruct (Z.ltb_spec ((kx - px) * (kx - px) + (ky - py) * (ky - py)) 400) as [L|L];
    cbn [final put_coins coins].
  - rewrite list_lookup_alter_eq, Hi. cbn. tauto.
  - rewrite Hi. cbn. rewrite Hu. split; [lia | discriminate].
Qed.

(** The client standing on coin c0 asks for it. *)
Lemma collect_on_integer_positions_witness :
  reachable at_coin /\
  exists d2 : Q,
    sqdist (mkCoin "c0" (of_Z 80) (of_Z 80) false)
           (mkPlayer "p1" "Pilotp1" (of_Z 80) (of_Z 80) (of_Z 120)) = Some d2 /\
    ((d2 < 400)%Q <->
     c_taken <$> coins (final (on_message 0 (Some (message "collect" [("coinId", VStr "c0")]))
                                 t0 at_coin)) !! 0%nat = Some true).
Proof.
  split; [exact at_coin_reachable|].
  apply (collect_on_integer_positions 0 (message "collect" [("coinId", VStr "c0")]) t0
           at_coin 0 (mkCoin "c0" (of_Z 80) (of_Z 80) false)
           (mkConn (mkPlayer "p1" "Pilotp1" (of_Z 80) (of_Z 80) (of_Z 120)) OPEN) 80 80
           at_coin_reachable eq_refl);
    try (vm_compute; reflexivity).
Defined.

(** X24.  In every reachable state the counter holds an integer from 1 to
    2^53, and the counter after one more connection is the binary64 sum of
    the counter and 1: one more below 2^53, and 2^53 again at 2^53. *)
Theorem counter_grows_in_binary64 (s : Server) (now : number) :
  reachable s ->
  (1 <= nextId s <= counter_max)%N /\
  of_Z (Z.of_N (nextId (final (on_connection now s))))
    = add (of_Z (Z.of_N (nextId s))) (of_Z 1) /\
  nextId (final (on_connection now s))
    = if (nextId s <? 9007199254740992)%N then N.succ (nextId s) else nextId s.
Proof.
  intros Hs. apply consistent_reachable in Hs.
  pose proof counter_max_pos as Hpos.
  assert (Hb : (1 <= nextId s <= counter_max)%N)
    by (rewrite (counter_value s Hs); unfold counter_after; lia).
  split; [exact Hb|].
  rewrite on_connection_spec. cbn [final connected nextId].
  split; [|reflexivity].
  symmetry. apply increment_binary64. lia.
Qed.

Lemma counter_grows_in_binary64_witness :
  reachable two_clients /\
  of_Z 4 = add (of_Z (Z.of_N (nextId two_clients))) (of_Z 1).
Proof.
  split; [exact two_clients_reachable|].
  exact (proj1 (proj2 (counter_grows_in_binary64 two_clients t0 two_clients_reachable))).
Defined.

End Further.
